(** * weibo-check: the response normaliser, the data loader, the grade
      counters and the environment overrides

    A shallow embedding of the parts of [src/analyze_trends.py] and
    [src/config_loader.py] that decide what a run returns and which files
    it writes:

    - [TrendAnalyzer.analyze_topics]  (fence stripping, strict parse, array
      extraction, rule-based repair, debug artifact),
    - [TrendAnalyzer._fix_json]       (the fifteen [re.sub] calls),
    - [TrendAnalyzer.get_latest_data_file],
    - [TrendAnalyzer.generate_html_report] (the three grade counters and the
      two files it writes),
    - [TrendAnalyzer.run],
    - [ConfigLoader._load_env_overrides],

    and, beside them, of the older normaliser of [src/analyze_with_claude.py],
    of the styles of the report cards, of
    [PathManager._find_project_root] of [src/path_utils.py], and of
    [_validate_response] and [process_data] of [src/fetch_weibo.py] and
    [src/fetch_hotsearch.py].

    Python text is a list of code points.  The pieces of the Python library
    the code calls ([str.strip], [str.isdigit], [int], [re.search], [re.sub],
    [json.loads], [print], [open] and [write], [sorted], [Path.glob]) are
    modelled after CPython 3.11 (Unicode 14.0), with their exceptions: a
    structural-parse error, an integer too long to convert, the recursion
    limit, a text that UTF-8 cannot encode.  What is left out of each is
    said where it is defined. *)

From stdpp Require Import gmap list strings.
From Stdlib Require Import NArith ZArith Lia.

Set Warnings "-register-all".
Local Open Scope N_scope.

(** ** Python text *)

Module PyStr.

(** A [str] value: its code points, in order. *)
Definition text := list N.

(** An ASCII literal. *)
Fixpoint str (s : string) : text :=
  match s with
  | EmptyString => []
  | String a s' => Ascii.N_of_ascii a :: str s'
  end.

(** An ASCII literal of JSON text, written with ['] where the text has
    a double quote. *)
Definition js (s : string) : text :=
  List.map (fun c => if c =? 39 then 34 else c) (str s).

Definition in_range (lo hi c : N) : bool := (lo <=? c) && (c <=? hi).

Definition in_ranges (tbl : list (N * N)) (c : N) : bool :=
  existsb (fun r => in_range (fst r) (snd r) c) tbl.

(** [str.isspace] on one character; the same set is what [str.strip()]
    removes and what [\s] matches in a [str] pattern. *)
Definition whitespace_table : list (N * N) :=
  [ (9, 13); (28, 32); (133, 133); (160, 160); (5760, 5760); (8192, 8202);
    (8232, 8233); (8239, 8239); (8287, 8287); (12288, 12288) ].

Definition isspace (c : N) : bool := in_ranges whitespace_table c.

(** Characters of category Nd: [str.isdecimal], [\d], and the digits
    [int] accepts.  Every run starts at a digit zero and its length is a
    multiple of ten. *)
Definition decimal_table : list (N * N) :=
  [ (48, 57); (1632, 1641); (1776, 1785); (1984, 1993); (2406, 2415);
    (2534, 2543); (2662, 2671); (2790, 2799); (2918, 2927); (3046, 3055);
    (3174, 3183); (3302, 3311); (3430, 3439); (3558, 3567); (3664, 3673);
    (3792, 3801); (3872, 3881); (4160, 4169); (4240, 4249); (6112, 6121);
    (6160, 6169); (6470, 6479); (6608, 6617); (6784, 6793); (6800, 6809);
    (6992, 7001); (7088, 7097); (7232, 7241); (7248, 7257); (42528, 42537);
    (43216, 43225); (43264, 43273); (43472, 43481); (43504, 43513);
    (43600, 43609); (44016, 44025); (65296, 65305); (66720, 66729);
    (68912, 68921); (69734, 69743); (69872, 69881); (69942, 69951);
    (70096, 70105); (70384, 70393); (70736, 70745); (70864, 70873);
    (71248, 71257); (71360, 71369); (71472, 71481); (71904, 71913);
    (72016, 72025); (72784, 72793); (73040, 73049); (73120, 73129);
    (92768, 92777); (92864, 92873); (93008, 93017); (120782, 120831);
    (123200, 123209); (123632, 123641); (125264, 125273);
    (130032, 130041) ].

Definition isdecimal_char (c : N) : bool := in_ranges decimal_table c.

(** Characters with Numeric_Type Digit that are not decimal (superscripts,
    subscripts, circled digits, ...): [str.isdigit] accepts them, [int]
    does not. *)
Definition other_digit_table : list (N * N) :=
  [ (178, 179); (185, 185); (4969, 4977); (6618, 6618); (8304, 8304);
    (8308, 8313); (8320, 8329); (9312, 9320); (9332, 9340); (9352, 9360);
    (9450, 9450); (9461, 9469); (9471, 9471); (10102, 10110);
    (10112, 10120); (10122, 10130); (68160, 68163); (69216, 69224);
    (69714, 69722); (127232, 127242) ].

Definition isdigit_char (c : N) : bool :=
  isdecimal_char c || in_ranges other_digit_table c.

(** [s.isdigit()]: at least one character and every character a digit. *)
Definition isdigit (s : text) : bool :=
  match s with
  | [] => false
  | _ => forallb isdigit_char s
  end.

(** The value of a decimal character. *)
Fixpoint decimal_in (tbl : list (N * N)) (c : N) : option N :=
  match tbl with
  | [] => None
  | (lo, hi) :: tbl' =>
      if in_range lo hi c then Some ((c - lo) mod 10) else decimal_in tbl' c
  end.

Definition decimal_value (c : N) : option N := decimal_in decimal_table c.

Fixpoint digits_value (acc : N) (s : text) : option N :=
  match s with
  | [] => Some acc
  | c :: s' =>
      match decimal_value c with
      | Some d => digits_value (10 * acc + d) s'
      | None => None
      end
  end.

(** [sys.int_max_str_digits], at its default. *)
Definition int_max_str_digits : nat := 4300.

(** [int(s)] for a [s] that passed [s.isdigit()], so that the sign, the
    underscores and the surrounding blanks [int] also accepts cannot occur:
    [None] is [ValueError]. *)
Definition int_of_digits (s : text) : option Z :=
  if Nat.ltb int_max_str_digits (length s) then None
  else match s with
       | [] => None
       | _ => option_map Z.of_N (digits_value 0 s)
       end.

Fixpoint lstrip (p : N -> bool) (s : text) : text :=
  match s with
  | [] => []
  | c :: s' => if p c then lstrip p s' else s
  end.

Definition rstrip (p : N -> bool) (s : text) : text :=
  rev (lstrip p (rev s)).

(** [s.strip()] *)
Definition strip (s : text) : text := rstrip isspace (lstrip isspace s).

(** [s.startswith(p)] *)
Fixpoint startswith (s p : text) {struct p} : bool :=
  match p with
  | [] => true
  | a :: p' =>
      match s with
      | [] => false
      | b :: s' => (b =? a) && startswith s' p'
      end
  end.

(** [s.endswith(p)] *)
Definition endswith (s p : text) : bool := startswith (rev s) (rev p).

(** [s[n:]] and [s[:-n]] for a literal [n]. *)
Definition slice_from (n : nat) (s : text) : text := drop n s.
Definition slice_but_last (n : nat) (s : text) : text :=
  take (length s - n)%nat s.

(** [l[:n]] for an integer [n] of either sign. *)
Definition slice_to {A} (n : Z) (l : list A) : list A :=
  if (0 <=? n)%Z then take (Z.to_nat n) l
  else take (length l - Z.to_nat (- n))%nat l.

(** [s.replace(c, r)] for a one-character [c]. *)
Definition replace_char (c : N) (r : text) (s : text) : text :=
  flat_map (fun x => if x =? c then r else [x]) s.

(** Comparison of two [str]: by code point, a proper prefix first. *)
Fixpoint text_leb (a b : text) : bool :=
  match a, b with
  | [], _ => true
  | _ :: _, [] => false
  | x :: a', y :: b' => (x <? y) || ((x =? y) && text_leb a' b')
  end.

Fixpoint text_eqb (a b : text) : bool :=
  match a, b with
  | [], [] => true
  | x :: a', y :: b' => (x =? y) && text_eqb a' b'
  | _, _ => false
  end.

(** A surrogate code point: a [str] can hold one on its own (a
    [\ud800] escape in JSON text gives one), and UTF-8 has no encoding
    for it. *)
Definition is_surrogate (c : N) : bool := in_range 55296 57343 c.

(** Whether [s.encode('utf-8')] succeeds. *)
Definition encodable (s : text) : bool :=
  forallb (fun c => negb (is_surrogate c)) s.

End PyStr.
Export PyStr.

(** ** Exceptions and results *)

Module Py.

(** The exceptions a run can meet.  A [JSONDecodeError] carries the
    document that failed to parse (its [doc] attribute); its message and
    position are not modelled.  The message of every exception is taken to
    be printable. *)
Inductive exn :=
| JSONDecodeError (doc : text)
| ValueError
| RecursionError
| FileNotFoundError
| KeyError
| TypeError
| AttributeError
| UnicodeEncodeError
| OtherError (tag : text).

Inductive outcome (A : Type) :=
| Ok (a : A)
| Raise (e : exn).
Arguments Ok {A} a.
Arguments Raise {A} e.

(** Sequencing: the first exception raised ends the computation. *)
Definition bind {A B} (x : outcome A) (f : A -> outcome B) : outcome B :=
  match x with
  | Ok a => f a
  | Raise e => Raise e
  end.

(** [print(s)], with the standard output encoding in UTF-8 and
    refusing what it cannot encode, as it does under a UTF-8 locale: the
    literal messages of the program always print, a text with a surrogate
    raises. *)
Definition print (s : text) : outcome unit :=
  if encodable s then Ok () else Raise UnicodeEncodeError.

End Py.
Export Py.

Notation "x <-- c1 ; c2" := (Py.bind c1 (fun x => c2))
  (at level 20, c1 at level 100, c2 at level 200, only parsing).

(** ** The fragment of [re] the program uses

    Patterns are built from literal characters and words, character
    classes, a greedy star or plus over one class, sequence, alternation,
    the capture group 1 and a one-character positive lookahead: every
    pattern of [analyze_trends.py] is of this form.  A match is found by
    backtracking; the candidate matches at one position are listed in the
    order in which [re] tries them, so that the first of the list is the
    match [re] reports. *)

Module Regex.

Inductive regex :=
| Chr (c : N)
| Lit (w : text)
| Cls (p : N -> bool)
| Star (p : N -> bool)
| Plus (p : N -> bool)
| Cat (r1 r2 : regex)
| Alt (r1 r2 : regex)
| Grp (r : regex)
| Ahead (p : N -> bool).

(** What is left of [s] after [p*], the longest run first. *)
Fixpoint star_rests (p : N -> bool) (s : text) : list text :=
  match s with
  | [] => [[]]
  | c :: s' => if p c then star_rests p s' ++ [s] else [s]
  end.

(** The part of [s] in front of its suffix [rest]. *)
Definition consumed (s rest : text) : text :=
  take (length s - length rest)%nat s.

(** The candidate matches of [r] at the start of [s]: for each, the text
    of group 1 (if set) and what is left of [s]. *)
Fixpoint matches (r : regex) (g : option text) (s : text)
  : list (option text * text) :=
  match r with
  | Chr c =>
      match s with
      | x :: s' => if x =? c then [(g, s')] else []
      | [] => []
      end
  | Lit w => if startswith s w then [(g, drop (length w) s)] else []
  | Cls p =>
      match s with
      | x :: s' => if p x then [(g, s')] else []
      | [] => []
      end
  | Star p => List.map (pair g) (star_rests p s)
  | Plus p =>
      match s with
      | x :: s' => if p x then List.map (pair g) (star_rests p s') else []
      | [] => []
      end
  | Cat r1 r2 => flat_map (fun m => matches r2 (fst m) (snd m)) (matches r1 g s)
  | Alt r1 r2 => matches r1 g s ++ matches r2 g s
  | Grp r1 =>
      List.map (fun m => (Some (consumed s (snd m)), snd m)) (matches r1 g s)
  | Ahead p =>
      match s with
      | x :: _ => if p x then [(g, s)] else []
      | [] => []
      end
  end.

(** The match at the start of [s], if any. *)
Definition match_at (r : regex) (s : text) : option (option text * text) :=
  head (matches r None s).

(** The first match at the start of [s] that is not empty: what [re]
    looks for at a position where it has just reported an empty match. *)
Definition match_at_nonempty (r : regex) (s : text)
  : option (option text * text) :=
  head (List.filter (fun m => Nat.ltb (length (snd m)) (length s))
                    (matches r None s)).

(** [re.search(r, s)]: the text of the leftmost match ([m.group()]). *)
Fixpoint search (r : regex) (s : text) : option text :=
  match match_at r s with
  | Some (_, rest) => Some (consumed s rest)
  | None =>
      match s with
      | [] => None
      | _ :: s' => search r s'
      end
  end.

(** A replacement template: literal text and [\1]. *)
Inductive ritem := RText (t : text) | RGroup1.

Definition expand (repl : list ritem) (g : option text) : text :=
  flat_map (fun i => match i with
                     | RText t => t
                     | RGroup1 => default [] g
                     end) repl.

(** [re.sub(r, repl, s)], left to right.  [skip] counts the characters of
    [s] that belong to the match just replaced.  After an empty match
    [re] (3.7 and later) still accepts a non-empty match at the same
    position. *)
Fixpoint sub_from (r : regex) (repl : list ritem) (skip : nat) (s : text)
  : text :=
  match s with
  | [] =>
      match skip, match_at r [] with
      | O, Some (g, _) => expand repl g
      | _, _ => []
      end
  | c :: s' =>
      match skip with
      | S k => sub_from r repl k s'
      | O =>
          match match_at r s with
          | None => c :: sub_from r repl 0 s'
          | Some (g, rest) =>
              match (length s - length rest)%nat with
              | S k => expand repl g ++ sub_from r repl k s'
              | O =>
                  expand repl g ++
                  match match_at_nonempty r s with
                  | Some (g', rest') =>
                      expand repl g' ++
                      sub_from r repl (length s' - length rest')%nat s'
                  | None => c :: sub_from r repl 0 s'
                  end
              end
          end
      end
  end.

Definition sub (r : regex) (repl : list ritem) (s : text) : text :=
  sub_from r repl 0 s.

(** [\s], [\d], [[\s\S]] and the class [[a-zA-Z_\u4e00-\u9fff]]. *)
Definition space : N -> bool := isspace.
Definition digit : N -> bool := isdecimal_char.
Definition anychar : N -> bool := fun c => isspace c || negb (isspace c).
Definition key_start (c : N) : bool :=
  in_range 97 122 c || in_range 65 90 c || (c =? 95) || in_range 19968 40959 c.

End Regex.

(** ** [json.loads]

    The C scanner of CPython's [json] module, with the default hooks and
    [strict=True].  A float keeps its lexeme instead of a binary64 value, and
    an object is the association list [dict(pairs)] builds (a repeated key
    keeps its first position and its last value); equal models are equal
    Python values.  Nesting is bounded as the interpreter bounds it. *)

Module Json.

Inductive json :=
| JNull
| JBool (b : bool)
| JInt (n : Z)
| JFloat (lexeme : text)
| JStr (s : text)
| JArr (l : list json)
| JObj (m : list (text * json)).

(** [d[k] = v] *)
Fixpoint dict_set (k : text) (v : json) (m : list (text * json))
  : list (text * json) :=
  match m with
  | [] => [(k, v)]
  | (k', v') :: m' =>
      if text_eqb k' k then (k', v) :: m' else (k', v') :: dict_set k v m'
  end.

(** [dict(pairs)] *)
Definition dict_of_pairs (pairs : list (text * json)) : list (text * json) :=
  fold_left (fun m kv => dict_set (fst kv) (snd kv) m) pairs [].

(** [d.get(k)] *)
Fixpoint dict_get (k : text) (m : list (text * json)) : option json :=
  match m with
  | [] => None
  | (k', v) :: m' => if text_eqb k' k then Some v else dict_get k m'
  end.

Inductive perr := Malformed | IntTooLong | TooDeep | NoFuel.

Inductive pres (A : Type) :=
| POk (a : A)
| PErr (e : perr).
Arguments POk {A} a.
Arguments PErr {A} e.

Definition json_ws (c : N) : bool :=
  (c =? 32) || (c =? 9) || (c =? 10) || (c =? 13).

Definition skip_ws (s : text) : text := lstrip json_ws s.

Definition is_digit (c : N) : bool := in_range 48 57 c.

Definition hex_value (c : N) : option N :=
  if in_range 48 57 c then Some (c - 48)
  else if in_range 97 102 c then Some (c - 87)
  else if in_range 65 70 c then Some (c - 55)
  else None.

Definition hex4 (a b c d : N) : option N :=
  match hex_value a, hex_value b, hex_value c, hex_value d with
  | Some x, Some y, Some z, Some w => Some (((x * 16 + y) * 16 + z) * 16 + w)
  | _, _, _, _ => None
  end.

Definition unescape (c : N) : option N :=
  if c =? 34 then Some 34
  else if c =? 92 then Some 92
  else if c =? 47 then Some 47
  else if c =? 98 then Some 8
  else if c =? 102 then Some 12
  else if c =? 110 then Some 10
  else if c =? 114 then Some 13
  else if c =? 116 then Some 9
  else None.

Definition is_high_surrogate (u : N) : bool := in_range 55296 56319 u.
Definition is_low_surrogate (u : N) : bool := in_range 56320 57343 u.
Definition join_surrogates (hi lo : N) : N :=
  65536 + ((hi - 55296) * 1024 + (lo - 56320)).

(** [scanstring]: [s] starts after the opening quote, [acc] holds the
    characters read so far, last first.  A high surrogate escape that is
    followed by a low surrogate escape gives one character; any other
    surrogate escape stands for itself. *)
Fixpoint scanstring (s : text) (acc : text) : option (text * text) :=
  match s with
  | [] => None
  | c :: s1 =>
      if c =? 34 then Some (rev acc, s1)
      else if c =? 92 then
        match s1 with
        | [] => None
        | e :: s2 =>
            if e =? 117 then
              match s2 with
              | h1 :: h2 :: h3 :: h4 :: s3 =>
                  match hex4 h1 h2 h3 h4 with
                  | None => None
                  | Some u =>
                      match s3 with
                      | b :: t1 =>
                          if is_high_surrogate u && (b =? 92) then
                            match t1 with
                            | v :: t2 =>
                                if v =? 117 then
                                  match t2 with
                                  | k1 :: k2 :: k3 :: k4 :: s4 =>
                                      match hex4 k1 k2 k3 k4 with
                                      | None => None
                                      | Some u2 =>
                                          if is_low_surrogate u2
                                          then scanstring s4 (join_surrogates u u2 :: acc)
                                          else scanstring s3 (u :: acc)
                                      end
                                  | _ => scanstring s3 (u :: acc)
                                  end
                                else scanstring s3 (u :: acc)
                            | [] => scanstring s3 (u :: acc)
                            end
                          else scanstring s3 (u :: acc)
                      | [] => None
                      end
                  end
              | _ => None
              end
            else
              match unescape e with
              | Some x => scanstring s2 (x :: acc)
              | None => None
              end
        end
      else if c <=? 31 then None
      else scanstring s1 (c :: acc)
  end.

Fixpoint span_digits (s : text) : text * text :=
  match s with
  | [] => ([], [])
  | c :: s' =>
      if is_digit c
      then (c :: fst (span_digits s'), snd (span_digits s'))
      else ([], s)
  end.

(** The integer part: an optional sign is taken off by the caller; then a
    single 0, or a digit 1-9 and any number of digits. *)
Definition int_part (s : text) : option (text * text) :=
  match s with
  | [] => None
  | c :: s' =>
      if in_range 49 57 c
      then Some (c :: fst (span_digits s'), snd (span_digits s'))
      else if c =? 48 then Some ([c], s')
      else None
  end.

(** The fraction, if any: a dot and at least one digit. *)
Definition frac_part (s : text) : text * text :=
  match s with
  | dot :: c :: s' =>
      if (dot =? 46) && is_digit c
      then (dot :: c :: fst (span_digits s'), snd (span_digits s'))
      else ([], s)
  | _ => ([], s)
  end.

(** The exponent, if any: e or E, an optional sign, at least one digit. *)
Definition exp_part (s : text) : text * text :=
  match s with
  | [] => ([], s)
  | e :: s1 =>
      if (e =? 101) || (e =? 69) then
        let sg := match s1 with
                  | x :: s2 => if (x =? 43) || (x =? 45) then ([x], s2) else ([], s1)
                  | [] => ([], s1)
                  end in
        match span_digits (snd sg) with
        | ([], _) => ([], s)
        | (d, r) => (e :: fst sg ++ d, r)
        end
      else ([], s)
  end.

Definition digits_to_Z (d : text) : Z :=
  fold_left (fun acc c => (10 * acc + Z.of_N (c - 48))%Z) d 0%Z.

(** The number after its sign, if it has one. *)
Definition number_body (neg : bool) (m : text) : option (pres (json * text)) :=
  match int_part m with
  | None => None
  | Some (ds, r1) =>
      let fr := frac_part r1 in
      let ex := exp_part (snd fr) in
      match fst fr, fst ex with
      | [], [] =>
          if Nat.ltb int_max_str_digits (length ds) then Some (PErr IntTooLong)
          else Some (POk (JInt (if neg then - digits_to_Z ds
                                else digits_to_Z ds)%Z, r1))
      | _, _ =>
          Some (POk (JFloat ((if neg then [45] else []) ++ ds ++ fst fr ++ fst ex),
                     snd ex))
      end
  end.

(** [_match_number]: [None] when no number starts here. *)
Definition match_number (s : text) : option (pres (json * text)) :=
  match s with
  | [] => None
  | c :: s' => if c =? 45 then number_body true s' else number_body false s
  end.

(** The word constants, tried after a number failed to match. *)
Definition match_constant (s : text) : option (json * text) :=
  if startswith s (str "NaN") then Some (JFloat (str "NaN"), drop 3 s)
  else if startswith s (str "Infinity") then Some (JFloat (str "Infinity"), drop 8 s)
  else if startswith s (str "-Infinity") then Some (JFloat (str "-Infinity"), drop 9 s)
  else None.

(** [scan_once], [_parse_array] and [_parse_object].  [depth] is the
    number of arrays and objects, one inside the other, that the interpreter
    can still enter: the scanner enters a recursive call at every opening
    bracket and brace, also of an empty array or object, and leaves it at the
    end of the array or object; with no call left it raises
    [RecursionError].  [fuel] bounds the calls of the model; [json_loads]
    provides enough of it. *)
Fixpoint scan_once (fuel : nat) (depth : nat) (s : text) {struct fuel}
  : pres (json * text) :=
  match fuel with
  | O => PErr NoFuel
  | S fuel' =>
      match s with
      | [] => PErr Malformed
      | c :: s' =>
          if c =? 34 then
            match scanstring s' [] with
            | Some (k, r) => POk (JStr k, r)
            | None => PErr Malformed
            end
          else if c =? 123 then
            match depth with
            | O => PErr TooDeep
            | S depth' =>
                match skip_ws s' with
                | [] => PErr Malformed
                | d :: r =>
                    if d =? 125 then POk (JObj [], r)
                    else parse_members fuel' depth' (d :: r) []
                end
            end
          else if c =? 91 then
            match depth with
            | O => PErr TooDeep
            | S depth' =>
                match skip_ws s' with
                | [] => PErr Malformed
                | d :: r =>
                    if d =? 93 then POk (JArr [], r)
                    else parse_items fuel' depth' (d :: r) []
                end
            end
          else if startswith s (str "null") then POk (JNull, drop 4 s)
          else if startswith s (str "true") then POk (JBool true, drop 4 s)
          else if startswith s (str "false") then POk (JBool false, drop 5 s)
          else
            match match_number s with
            | Some res => res
            | None =>
                match match_constant s with
                | Some res => POk res
                | None => PErr Malformed
                end
            end
      end
  end
with parse_items (fuel : nat) (depth : nat) (s : text) (acc : list json)
       {struct fuel} : pres (json * text) :=
  match fuel with
  | O => PErr NoFuel
  | S fuel' =>
      match scan_once fuel' depth s with
      | PErr e => PErr e
      | POk (v, r) =>
          match skip_ws r with
          | [] => PErr Malformed
          | d :: r' =>
              if d =? 93 then POk (JArr (rev (v :: acc)), r')
              else if d =? 44
              then parse_items fuel' depth (skip_ws r') (v :: acc)
              else PErr Malformed
          end
      end
  end
with parse_members (fuel : nat) (depth : nat) (s : text)
       (acc : list (text * json)) {struct fuel} : pres (json * text) :=
  match fuel with
  | O => PErr NoFuel
  | S fuel' =>
      match s with
      | [] => PErr Malformed
      | q :: s1 =>
          if q =? 34 then
            match scanstring s1 [] with
            | None => PErr Malformed
            | Some (k, r1) =>
                match skip_ws r1 with
                | [] => PErr Malformed
                | col :: r2 =>
                    if col =? 58 then
                      match scan_once fuel' depth (skip_ws r2) with
                      | PErr e => PErr e
                      | POk (v, r3) =>
                          match skip_ws r3 with
                          | [] => PErr Malformed
                          | d :: r4 =>
                              if d =? 125
                              then POk (JObj (dict_of_pairs (rev ((k, v) :: acc))), r4)
                              else if d =? 44
                              then parse_members fuel' depth (skip_ws r4)
                                                 ((k, v) :: acc)
                              else PErr Malformed
                          end
                      end
                    else PErr Malformed
                end
            end
          else PErr Malformed
      end
  end.

Definition fuel_for (s : text) : nat := S (2 * length s).

(** [json.loads(s)] for a [str] argument.  [limit] is the number of
    nested arrays and objects the interpreter allows where the call is
    made: what the recursion limit (1000 unless it was changed) leaves once
    the frames in use are taken off. *)
Definition json_loads (limit : nat) (s : text) : outcome json :=
  if startswith s [65279] then Raise (JSONDecodeError s)
  else
    match scan_once (fuel_for s) limit (skip_ws s) with
    | POk (v, r) =>
        match skip_ws r with
        | [] => Ok v
        | _ :: _ => Raise (JSONDecodeError s)
        end
    | PErr Malformed => Raise (JSONDecodeError s)
    | PErr IntTooLong => Raise ValueError
    | PErr TooDeep => Raise RecursionError
    | PErr NoFuel => Raise RecursionError
    end.

End Json.
Export Json.

(** ** The data directory and the clock *)

Module FS.

(** The data directory: [None] when it does not exist, else its files
    (name to content).  A file is a text file in UTF-8, and a name is one
    path component that the file system takes; the path of the directory
    itself is printable.  Entries that are not regular files, permissions
    and a full disk are not modelled. *)
Definition dir := option (gmap text text).

Definition names (d : dir) : list text :=
  match d with
  | None => []
  | Some files => elements (dom files)
  end.

(** Whether the file system encoding takes the name: UTF-8, in which a
    surrogate from U+DC80 to U+DCFF stands for a byte that is not UTF-8 and
    no other surrogate has an encoding. *)
Definition name_encodable (name : text) : bool :=
  forallb (fun c => negb (is_surrogate c) || in_range 56448 56575 c) name.

(** [open(name, 'r', encoding='utf-8').read()] *)
Definition read_file (name : text) (d : dir) : outcome text :=
  if name_encodable name then
    match d with
    | None => Raise FileNotFoundError
    | Some files =>
        match files !! name with
        | Some content => Ok content
        | None => Raise FileNotFoundError
        end
    end
  else Raise UnicodeEncodeError.

(** The [write] calls of [parts] on a file that holds [content]: a part
    that UTF-8 cannot encode raises at its call, and the file keeps what the
    calls before it wrote. *)
Fixpoint write_all (parts : list text) (content : text)
  : outcome unit * text :=
  match parts with
  | [] => (Ok (), content)
  | part :: rest =>
      if encodable part then write_all rest (content ++ part)
      else (Raise UnicodeEncodeError, content)
  end.

(** [with open(name, 'w', encoding='utf-8') as f:] and one [f.write] for
    each of [parts].  Opening makes the file, empty. *)
Definition write_parts (name : text) (parts : list text) (d : dir)
  : outcome unit * dir :=
  if name_encodable name then
    match d with
    | None => (Raise FileNotFoundError, None)
    | Some files =>
        (fst (write_all parts []),
         Some (<[name := snd (write_all parts [])]> files))
    end
  else (Raise UnicodeEncodeError, d).

(** A file written with one call of [write]. *)
Definition write_file (name content : text) (d : dir) : outcome unit * dir :=
  write_parts name [content] d.

(** [path.mkdir(parents=True, exist_ok=True)] *)
Definition ensure_dir (d : dir) : dir :=
  match d with
  | None => Some ∅
  | Some files => Some files
  end.

End FS.
Export FS.

Module Clock.

(** A reading of [datetime.now()], with a four-digit year. *)
Record datetime := {
  year : N; month : N; day : N; hour : N; minute : N; second : N
}.

Definition digit_char (n : N) : N := 48 + n mod 10.
Definition pad2 (n : N) : text := [digit_char (n / 10); digit_char n].
Definition pad4 (n : N) : text :=
  [digit_char (n / 1000); digit_char (n / 100); digit_char (n / 10);
   digit_char n].

(** [strftime('%Y%m%d_%H%M%S')] *)
Definition strftime_compact (t : datetime) : text :=
  pad4 (year t) ++ pad2 (month t) ++ pad2 (day t) ++ [95] ++
  pad2 (hour t) ++ pad2 (minute t) ++ pad2 (second t).

(** [strftime("%Y-%m-%d %H:%M:%S")] *)
Definition strftime_pretty (t : datetime) : text :=
  pad4 (year t) ++ [45] ++ pad2 (month t) ++ [45] ++ pad2 (day t) ++ [32] ++
  pad2 (hour t) ++ [58] ++ pad2 (minute t) ++ [58] ++ pad2 (second t).

End Clock.
Export Clock.

(** ** [config_loader.py] *)

Module ConfigLoader.

(** The options of the merged configuration that the modelled code
    reads or writes.  [topic_count] and the thresholds are integers, as in
    [DEFAULT_CONFIG]. *)
Record config := {
  api_key : text;
  topic_count : Z;
  data_dir : text;
  log_level : text;
  report_filename_format : text;
  intermediate_filename : text;
  grade_excellent : Z;
  grade_good : Z
}.

Definition DEFAULT_CONFIG : config := {|
  api_key := [];
  topic_count := 20;
  data_dir := str "data";
  log_level := str "INFO";
  report_filename_format := str "weibo_analysis_{timestamp}.html";
  intermediate_filename := str "weibo_analysis_{timestamp}.json";
  grade_excellent := 80;
  grade_good := 60
|}.

Definition ENV_PREFIX : text := str "WEIBO_SKILL_".

Definition set_api_key (v : text) (c : config) : config :=
  {| api_key := v; topic_count := topic_count c; data_dir := data_dir c;
     log_level := log_level c;
     report_filename_format := report_filename_format c;
     intermediate_filename := intermediate_filename c;
     grade_excellent := grade_excellent c; grade_good := grade_good c |}.

Definition set_topic_count (v : Z) (c : config) : config :=
  {| api_key := api_key c; topic_count := v; data_dir := data_dir c;
     log_level := log_level c;
     report_filename_format := report_filename_format c;
     intermediate_filename := intermediate_filename c;
     grade_excellent := grade_excellent c; grade_good := grade_good c |}.

Definition set_data_dir (v : text) (c : config) : config :=
  {| api_key := api_key c; topic_count := topic_count c; data_dir := v;
     log_level := log_level c;
     report_filename_format := report_filename_format c;
     intermediate_filename := intermediate_filename c;
     grade_excellent := grade_excellent c; grade_good := grade_good c |}.

Definition set_log_level (v : text) (c : config) : config :=
  {| api_key := api_key c; topic_count := topic_count c;
     data_dir := data_dir c; log_level := v;
     report_filename_format := report_filename_format c;
     intermediate_filename := intermediate_filename c;
     grade_excellent := grade_excellent c; grade_good := grade_good c |}.

(** [if v:] for [v = os.getenv(...)]: set and not empty. *)
Definition truthy (v : option text) : option text :=
  match v with
  | Some (c :: s) => Some (c :: s)
  | _ => None
  end.

Section Overrides.

(** [str.upper] *)
Variable upper : text -> text.

(** [os.environ] *)
Variable environ : gmap text text.

Definition getenv (name : text) : option text := environ !! name.

Definition _load_env_overrides (c : config) : outcome config :=
  let c :=
    match truthy (getenv (str "TIANAPI_KEY")) with
    | Some api_key => set_api_key api_key c
    | None => c
    end in
  c <-- match truthy (getenv (ENV_PREFIX ++ str "TOPIC_COUNT")) with
      | Some topic_count =>
          if isdigit topic_count then
            match int_of_digits topic_count with
            | Some n => Ok (set_topic_count n c)
            | None => Raise ValueError
            end
          else Ok c
      | None => Ok c
      end;
  let c :=
    match truthy (getenv (ENV_PREFIX ++ str "DATA_DIR")) with
    | Some data_dir => set_data_dir data_dir c
    | None => c
    end in
  let c :=
    match truthy (getenv (ENV_PREFIX ++ str "LOG_LEVEL")) with
    | Some log_level => set_log_level (upper log_level) c
    | None => c
    end in
  Ok c.

End Overrides.

End ConfigLoader.

(** ** [analyze_trends.py] *)

Module TrendAnalyzer.

Import Regex ConfigLoader.

(** The [--source] values the command line admits. *)
Inductive source := weibo | douyin | wechat.

Definition source_id (s : source) : text :=
  match s with
  | weibo => str "weibo"
  | douyin => str "douyin"
  | wechat => str "wechat"
  end.

(** [self.source_map.get(source, source)] *)
Definition source_name (s : source) : text :=
  match s with
  | weibo => [24494; 21338]
  | douyin => [25238; 38899]
  | wechat => [24494; 20449]
  end.

(** *** [get_latest_data_file] *)

(** A glob pattern without [?] and brackets. *)
Inductive gtok := GChar (c : N) | GStar.

Fixpoint glob_match (p : list gtok) (name : text) : bool :=
  match p with
  | [] =>
      match name with
      | [] => true
      | _ :: _ => false
      end
  | GChar c :: p' =>
      match name with
      | [] => false
      | x :: name' => (x =? c) && glob_match p' name'
      end
  | GStar :: p' =>
      (fix star (n : text) : bool :=
         glob_match p' n ||
         match n with
         | [] => false
         | _ :: n' => star n'
         end) name
  end.

(** [f"{self.source}_raw_*.json"] *)
Definition raw_pattern (s : source) : list gtok :=
  List.map GChar (source_id s ++ str "_raw_") ++ [GStar] ++
  List.map GChar (str ".json").

(** [sorted(names, reverse=True)]; paths of one directory compare by
    name. *)
Fixpoint insert_desc (x : text) (l : list text) : list text :=
  match l with
  | [] => [x]
  | y :: l' => if text_leb y x then x :: l else y :: insert_desc x l'
  end.

Definition sorted_desc (l : list text) : list text :=
  foldr insert_desc [] l.

Definition get_latest_data_file (s : source) (d : dir) : outcome text :=
  let files := sorted_desc (List.filter (glob_match (raw_pattern s)) (names d)) in
  match files with
  | [] => Raise FileNotFoundError
  | f :: _ => Ok f
  end.

(** *** [_fix_json] *)

Definition cat3 (a b c : regex) : regex := Cat a (Cat b c).
Definition cat4 (a b c d : regex) : regex := Cat a (Cat b (Cat c d)).

(** [(true|false|null)] *)
Definition word_constant : regex :=
  Grp (Alt (Lit (str "true")) (Alt (Lit (str "false")) (Lit (str "null")))).

Definition comma (c : N) : bool := c =? 44.

(** The substitutions, in the order of the source. *)
Definition rules : list (regex * list ritem) :=
  [ (cat3 (Chr 125) (Star space) (Chr 123), [RText (str "},{")]);
    (cat3 (Chr 93) (Star space) (Chr 91), [RText (str "],[")]);
    (cat4 (Chr 125) (Star space) (Chr 34) (Ahead key_start),
     [RText (js "},'")]);
    (cat4 (Chr 93) (Star space) (Chr 34) (Ahead key_start),
     [RText (js "],'")]);
    (cat4 (Chr 34) (Star space) (Chr 34) (Ahead key_start),
     [RText (js "','")]);
    (cat3 (Chr 34) (Plus space) (Chr 34), [RText (js "','")]);
    (cat4 (Grp (Cls digit)) (Star space) (Chr 34) (Ahead key_start),
     [RGroup1; RText (js ",'")]);
    (cat3 (Grp (Cls digit)) (Star space) (Chr 123),
     [RGroup1; RText (str ",{")]);
    (cat3 word_constant (Star space) (Chr 34), [RGroup1; RText (js ",'")]);
    (cat3 word_constant (Star space) (Chr 123), [RGroup1; RText (str ",{")]);
    (cat3 (Chr 44) (Star space) (Chr 93), [RText (str "]")]);
    (cat3 (Chr 44) (Star space) (Chr 125), [RText (str "}")]);
    (cat3 (Chr 44) (Star space) (Plus comma), [RText (str ",")]);
    (cat3 (Chr 123) (Star space) (Chr 44), [RText (str "{")]);
    (cat3 (Chr 91) (Star space) (Chr 44), [RText (str "[")]) ].

Definition apply_rule (t : text) (rule : regex * list ritem) : text :=
  sub (fst rule) (snd rule) t.

Definition _fix_json (t : text) : text :=
  fold_left apply_rule rules (lstrip (fun c => c =? 65279) (strip t)).

(** *** [analyze_topics], from the response text on (lines 106 to 171) *)

Definition fence_json : text := str "```json".
Definition fence : text := str "```".

Definition strip_fence (response_text : text) : text :=
  let t := strip response_text in
  let t := if startswith t fence_json then slice_from 7 t
           else if startswith t fence then slice_from 3 t
           else t in
  let t := if endswith t fence then slice_but_last 3 t else t in
  strip t.

(** [\[[\s\S]*\]] *)
Definition array_span : regex := cat3 (Chr 91) (Star anychar) (Chr 93).

Definition debug_name (now : datetime) : text :=
  str "debug_json_" ++ strftime_compact now ++ str ".txt".

Definition header_original : text :=
  [61; 61; 61; 32; 21407; 22987; 21709; 24212; 32; 61; 61; 61; 10].
Definition header_extracted : text :=
  [10; 10; 61; 61; 61; 32; 25552; 21462; 30340; 32; 74; 83; 79; 78; 32;
   61; 61; 61; 10].
Definition header_fixed_json : text :=
  [10; 10; 61; 61; 61; 32; 20462; 22797; 21518; 30340; 32; 74; 83; 79; 78;
   32; 61; 61; 61; 10].
Definition header_fixed_text : text :=
  [10; 10; 61; 61; 61; 32; 20462; 22797; 21518; 30340; 25991; 26412; 32;
   61; 61; 61; 10].

(** The debug write, one [f.write] for each of [parts], then [raise e].
    The name of the debug file, which is printed in between, is made of
    ASCII letters and digits. *)
Definition save_debug_and_raise (now : datetime) (parts : list text) (e : exn)
           (d : dir) : outcome json * dir :=
  match write_parts (debug_name now) parts d with
  | (Ok _, d') => (Raise e, d')
  | (Raise e', d') => (Raise e', d')
  end.

(** Of the messages printed on the way, one holds text of the response:
    its first 500 characters, printed when strict parsing has failed and
    before anything else is tried.  [limit] is the nesting [json.loads] is
    allowed where [analyze_topics] calls it. *)
Definition parse_response (limit : nat) (now : datetime) (response : text)
           (d : dir) : outcome json * dir :=
  let response_text := strip_fence response in
  match json_loads limit response_text with
  | Raise (JSONDecodeError _) =>
      match print (take 500 response_text) with
      | Raise e => (Raise e, d)
      | Ok _ =>
          match search array_span response_text with
          | Some extracted =>
              match json_loads limit extracted with
              | Raise (JSONDecodeError _) =>
                  let fixed_extracted := _fix_json extracted in
                  match json_loads limit fixed_extracted with
                  | Raise (JSONDecodeError doc) =>
                      save_debug_and_raise now
                        [header_original; response_text;
                         header_extracted; extracted;
                         header_fixed_json; fixed_extracted]
                        (JSONDecodeError doc) d
                  | result => (result, d)
                  end
              | result => (result, d)
              end
          | None =>
              let fixed_text := _fix_json response_text in
              match json_loads limit fixed_text with
              | Raise (JSONDecodeError doc) =>
                  save_debug_and_raise now
                    [header_original; response_text;
                     header_fixed_text; fixed_text]
                    (JSONDecodeError doc) d
              | result => (result, d)
              end
          end
      end
  | result => (result, d)
  end.

(** *** [generate_html_report]: the grade counters (lines 225 to 228) *)

Definition key_total_score : text := str "total_score".

(** [a.get('total_score', 0)] *)
Definition total_score_of (a : json) : outcome json :=
  match a with
  | JObj m => Ok (default (JInt 0) (dict_get key_total_score m))
  | _ => Raise AttributeError
  end.

Section Report.

(** How a float of the given lexeme compares with an integer; [None]
    for a NaN. *)
Variable float_cmp : text -> Z -> option comparison.

(** [x ?= n] for a parsed value [x]: numbers compare, [True] is 1 and
    [False] is 0, anything else is a [TypeError]. *)
Definition score_cmp (x : json) (n : Z) : outcome (option comparison) :=
  match x with
  | JInt k => Ok (Some (k ?= n)%Z)
  | JBool b => Ok (Some ((if b then 1 else 0) ?= n)%Z)
  | JFloat lexeme => Ok (float_cmp lexeme n)
  | _ => Raise TypeError
  end.

(** [x >= n] *)
Definition score_ge (x : json) (n : Z) : outcome bool :=
  c <-- score_cmp x n;
  Ok (match c with
      | Some Gt | Some Eq => true
      | _ => false
      end).

(** [x < n] *)
Definition score_lt (x : json) (n : Z) : outcome bool :=
  c <-- score_cmp x n;
  Ok (match c with
      | Some Lt => true
      | _ => false
      end).

(** [a.get('total_score', 0) >= grades['excellent']] *)
Definition is_excellent (c : config) (a : json) : outcome bool :=
  x <-- total_score_of a;
  score_ge x (grade_excellent c).

(** [grades['good'] <= a.get('total_score', 0) < grades['excellent']] *)
Definition is_good (c : config) (a : json) : outcome bool :=
  x <-- total_score_of a;
  match score_ge x (grade_good c) with
  | Ok true => score_lt x (grade_excellent c)
  | Ok false => Ok false
  | Raise e => Raise e
  end.

(** [sum(1 for a in analysis if p(a))] *)
Fixpoint count_if (p : json -> outcome bool) (analysis : list json)
  : outcome Z :=
  match analysis with
  | [] => Ok 0%Z
  | a :: rest =>
      b <-- p a;
      n <-- count_if p rest;
      Ok (if b then 1 + n else n)%Z
  end.

(** The elements a [for] loop over a parsed value visits. *)
Definition iterate (v : json) : outcome (list json) :=
  match v with
  | JArr l => Ok l
  | JObj m => Ok (List.map (fun kv => JStr (fst kv)) m)
  | JStr s => Ok (List.map (fun c => JStr [c]) s)
  | _ => Raise TypeError
  end.

(** [excellent], [good] and [average]. *)
Definition grade_counts (c : config) (analysis : json)
  : outcome (Z * Z * Z) :=
  items <-- iterate analysis;
  excellent <-- count_if (is_excellent c) items;
  good <-- count_if (is_good c) items;
  let average := (Z.of_nat (length items) - excellent - good)%Z in
  Ok (excellent, good, average).

End Report.

(** *** [analyze_topics], [generate_html_report] and [run]

    The collaborators whose code is outside the repository, or is pure
    templating, are parameters.  Of the messages printed, those that hold a
    text or a file name are modelled, with [print]; the others are literal
    text and numbers, which always print.  A run reads the clock once: for
    the debug file when parsing fails, for the report names otherwise. *)

Section Pipeline.

Variable float_cmp : text -> Z -> option comparison.

(** Lines 63 to 106: the prompt, the message that names the model,
    [self.client.messages.create(...)] and [message.content[0].text], as a
    function of the two values the prompt interpolates: the source name and
    the topics sent. *)
Variable complete : text -> json -> outcome text.

(** The f-strings that build [html_content], from the source name, the
    timestamp, the analysis and the three counters. *)
Variable render_html : text -> text -> json -> Z * Z * Z -> outcome text.

(** [fmt.format(source=..., timestamp=...)], which is to give a file
    name. *)
Variable format_name : text -> text -> text -> outcome text.

(** [json.dump(analysis, f, ensure_ascii=False, indent=2)]: the chunks it
    passes to [f.write], in order, and how the encoder ends after the last
    of them (it raises on a value nested too deep for it). *)
Variable dump_chunks : json -> list text * outcome unit.

(** The nesting allowed to [json.load] on the data file, and to
    [json.loads] on the response (see [Json.json_loads]). *)
Variable file_limit : nat.
Variable limit : nat.

Definition key_topics : text := str "topics".

(** [data['topics'][:topic_count]] *)
Definition topics_to_send (data : json) (count : Z) : outcome json :=
  match data with
  | JObj m =>
      match dict_get key_topics m with
      | None => Raise KeyError
      | Some (JArr l) => Ok (JArr (slice_to count l))
      | Some (JStr t) => Ok (JStr (slice_to count t))
      | Some _ => Raise TypeError
      end
  | _ => Raise TypeError
  end.

Definition analyze_topics (c : config) (s : source) (now : datetime)
           (data_file : text) (d : dir) : outcome json * dir :=
  match (content <-- read_file data_file d;
         data <-- json_loads file_limit content;
         topics_to_send data (topic_count c)) with
  | Raise e => (Raise e, d)
  | Ok topics =>
      match complete (source_name s) topics with
      | Raise e => (Raise e, d)
      | Ok response => parse_response limit now response d
      end
  end.

(** [timestamp.replace('-', '').replace(':', '').replace(' ', '_')] *)
Definition ts_clean (timestamp : text) : text :=
  replace_char 32 [95] (replace_char 58 [] (replace_char 45 [] timestamp)).

Definition index_name (s : source) : text :=
  str "index_" ++ source_id s ++ str ".html".

Definition generate_html_report (c : config) (s : source) (analysis : json)
           (timestamp : text) (d : dir) : outcome text * dir :=
  match (counts <-- grade_counts float_cmp c analysis;
         render_html (source_name s) timestamp analysis counts) with
  | Raise e => (Raise e, d)
  | Ok html_content =>
      let d := ensure_dir d in
      match format_name (report_filename_format c) (source_id s)
                        (ts_clean timestamp) with
      | Raise e => (Raise e, d)
      | Ok report_filename =>
          match write_file report_filename html_content d with
          | (Raise e, d) => (Raise e, d)
          | (Ok _, d) =>
              match write_file (index_name s) html_content d with
              | (Raise e, d) => (Raise e, d)
              | (Ok _, d) => (Ok report_filename, d)
              end
          end
      end
  end.

(** [len(analysis)] *)
Definition py_len (v : json) : outcome nat :=
  match v with
  | JArr l => Ok (length l)
  | JObj m => Ok (length m)
  | JStr t => Ok (length t)
  | _ => Raise TypeError
  end.

(** [run]: the exit status and the data directory afterwards.  The
    names of the data file, of the report and of the JSON result are
    printed, each once the step that gives it is done. *)
Definition run (c : config) (s : source) (now : datetime) (d : dir)
  : Z * dir :=
  match (data_file <-- get_latest_data_file s d;
         _ <-- print data_file;
         Ok data_file) with
  | Raise _ => (1%Z, d)
  | Ok data_file =>
      match analyze_topics c s now data_file d with
      | (Raise _, d) => (1%Z, d)
      | (Ok analysis, d) =>
          match py_len analysis with
          | Raise _ => (1%Z, d)
          | Ok _ =>
              let timestamp := strftime_pretty now in
              match generate_html_report c s analysis timestamp d with
              | (Raise _, d) => (1%Z, d)
              | (Ok report_filename, d) =>
                  match (_ <-- print report_filename;
                         format_name (intermediate_filename c) (source_id s)
                                     (ts_clean timestamp)) with
                  | Raise _ => (1%Z, d)
                  | Ok json_filename =>
                      match write_parts json_filename
                                        (fst (dump_chunks analysis)) d with
                      | (Raise _, d) => (1%Z, d)
                      | (Ok _, d) =>
                          match (_ <-- snd (dump_chunks analysis);
                                 print json_filename) with
                          | Raise _ => (1%Z, d)
                          | Ok _ => (0%Z, d)
                          end
                      end
                  end
              end
          end
      end
  end.

End Pipeline.

End TrendAnalyzer.

(** ** [analyze_with_claude.py]: the older normaliser *)

Module WeiboAnalyzer.

Import Regex TrendAnalyzer.

(** [analyze_topics], from the response text on (lines 95 to 117).  The
    cleaning of the fence is, line for line, the code that
    [TrendAnalyzer.strip_fence] embeds; the first 500 characters of the
    text are printed before the array is looked for; the bare [raise]
    raises the first error again. *)
Definition parse_response (limit : nat) (response : text) : outcome json :=
  let response_text := strip_fence response in
  match json_loads limit response_text with
  | Raise (JSONDecodeError doc) =>
      _ <-- print (take 500 response_text);
      match search array_span response_text with
      | Some extracted => json_loads limit extracted
      | None => Raise (JSONDecodeError doc)
      end
  | result => result
  end.

End WeiboAnalyzer.

(** ** The cards of the report (both analyzers) *)

Module ReportCards.

Import TrendAnalyzer.

Section Cards.

Variable float_cmp : text -> Z -> option comparison.

(** The style of the card of [item] (lines 380 and 381 of
    [analyze_trends.py], 278 and 279 of [analyze_with_claude.py]): the
    thresholds are written in the code. *)
Definition grade_class (item : json) : outcome text :=
  total_score <-- total_score_of item;
  excellent <-- score_ge float_cmp total_score 80;
  if excellent then Ok (str "excellent")
  else
    good <-- score_ge float_cmp total_score 60;
    Ok (if good then str "good" else []).

(** The style computed for each entry, in the order of the loop.  The
    rest of the loop body, which renders the card of the entry and raises on
    an entry it cannot render, belongs to the rendering. *)
Fixpoint card_classes (analysis : list json) : outcome (list text) :=
  match analysis with
  | [] => Ok []
  | item :: rest =>
      k <-- grade_class item;
      ks <-- card_classes rest;
      Ok (k :: ks)
  end.

End Cards.

End ReportCards.

(** ** [path_utils.py] *)

Module PathManager.

(** An absolute path: its components below the root, so that the root
    is the empty list. *)
Definition path := list text.

Definition PROJECT_MARKERS : list text :=
  [str ".claude"; str "config"; str "src"; str "data"].

(** [p.parent]: the root is its own parent. *)
Definition parent (p : path) : path := removelast p.

(** [p / name], for a name without a separator. *)
Definition child (p : path) (name : text) : path := p ++ [name].

Definition path_eqb (a b : path) : bool := bool_decide (a = b).

Section Root.

(** [Path.exists]: it raises where the file system refuses the look-up
    (a directory that may not be searched). *)
Variable exists_ : path -> outcome bool.

(** [Path.cwd()] *)
Variable cwd : outcome path.

(** The [for] loop of [_find_project_root] with [n] rounds left:
    [None] when it ends without returning. *)
Fixpoint search_up (n : nat) (current : path) : outcome (option path) :=
  match n with
  | O => Ok None
  | S n' =>
      found <-- (if existsb (fun marker => text_eqb marker (str ".claude"))
                            PROJECT_MARKERS
                 then exists_ (child current (str ".claude"))
                 else Ok false);
      if found then Ok (Some current)
      else
        let parent := parent current in
        if path_eqb parent current then Ok None else search_up n' parent
  end.

(** [file] is [Path(__file__)], an absolute path. *)
Definition _find_project_root (file : path) : outcome path :=
  let current := parent (parent file) in
  found <-- exists_ (child current (str ".claude"));
  if found then Ok current
  else
    r <-- search_up 5 current;
    match r with
    | Some root => Ok root
    | None => cwd
    end.

End Root.

End PathManager.

(** ** [fetch_weibo.py] and [fetch_hotsearch.py]: the response of the API *)

Module Fetcher.

Import TrendAnalyzer.

(** What the two fetchers share.  The response is what [response.json()]
    made of the body. *)

Section Code.

Variable float_cmp : text -> Z -> option comparison.

(** [data.get("code") != 200] is false. *)
Definition code_is_200 (code : option json) : bool :=
  match code with
  | Some (JInt n) => (n =? 200)%Z
  | Some (JFloat lexeme) =>
      match float_cmp lexeme 200 with
      | Some Eq => true
      | _ => false
      end
  | _ => false
  end.

End Code.

(** The part of a value that an f-string prints as it is: the text of a
    [str]; every other value is printed through [repr], which escapes what
    cannot be encoded. *)
Definition shown (v : option json) : text :=
  match v with
  | Some (JStr s) => s
  | _ => []
  end.

Definition unknown_topic : text := [26410; 30693; 35805; 39064].

(** [item.get(k1, item.get(k2, ... default))]: the value under the first
    of the keys that the record has. *)
Fixpoint first_of (keys : list text) (default : json) (m : list (text * json))
  : json :=
  match keys with
  | [] => default
  | k :: keys' =>
      match dict_get k m with
      | Some v => v
      | None => first_of keys' default m
      end
  end.

(** The topic made of [item] in the loop of [process_data]. *)
Definition topic_of (idx : Z) (item : json) : outcome json :=
  match item with
  | JObj m =>
      Ok (JObj
            [ (str "rank", JInt idx);
              (str "title",
               first_of [str "word"; str "title"; str "hotword"]
                        (JStr unknown_topic) m);
              (str "hot_value",
               first_of [str "hotnum"; str "hot"; str "hotwordnum"; str "num"]
                        (JStr (str "N/A")) m);
              (str "url", first_of [str "url"] (JStr []) m);
              (str "description",
               first_of [str "desc"; str "description"; str "hottag"]
                        (JStr []) m) ])
  | _ => Raise AttributeError
  end.

(** [for idx, item in enumerate(result, idx): ... topics.append(topic)] *)
Fixpoint topics_from (idx : Z) (items : list json) : outcome (list json) :=
  match items with
  | [] => Ok []
  | item :: rest =>
      topic <-- topic_of idx item;
      topics <-- topics_from (idx + 1) rest;
      Ok (topic :: topics)
  end.

(** What the loop visits: [raw_data.get("result", [])], or its [list]
    when it is a dictionary. *)
Definition result_items (raw_data : json) : outcome (list json) :=
  match raw_data with
  | JObj m =>
      let result := default (JArr []) (dict_get (str "result") m) in
      let result := match result with
                    | JObj r => default (JArr []) (dict_get (str "list") r)
                    | _ => result
                    end in
      iterate result
  | _ => Raise AttributeError
  end.

(** [process_data]: [source] is the label the fetcher writes, [fetch_time]
    the clock reading in ISO format and [timestamp] what reading the
    configured format and [strftime] give, after the loop. *)
Definition process_data (source fetch_time : text) (timestamp : outcome text)
           (raw_data : json) : outcome json :=
  items <-- result_items raw_data;
  topics <-- topics_from 1 items;
  timestamp <-- timestamp;
  match raw_data with
  | JObj m =>
      Ok (JObj
            [ (str "fetch_time", JStr fetch_time);
              (str "source", JStr source);
              (str "api_code", default JNull (dict_get (str "code") m));
              (str "api_message", default JNull (dict_get (str "msg") m));
              (str "topics", JArr topics);
              (str "total_count", JInt (Z.of_nat (length topics)));
              (str "timestamp", JStr timestamp) ])
  | _ => Raise AttributeError
  end.

End Fetcher.

Module WeiboFetcher.

Import Fetcher.

Section Validate.

Variable float_cmp : text -> Z -> option comparison.

Definition _validate_response (data : json) : outcome bool :=
  match data with
  | JObj m =>
      if code_is_200 float_cmp (dict_get (str "code") m) then
        match dict_get (str "result") m with
        | None => Ok false
        | Some (JObj result) =>
            match dict_get (str "list") result with
            | Some (JArr _) => Ok true
            | _ => Ok false
            end
        | Some (JArr _) => Ok true
        | Some _ => Ok false
        end
      else
        _ <-- print (shown (dict_get (str "code") m) ++
                     shown (dict_get (str "msg") m));
        Ok false
  | _ => Ok false
  end.

End Validate.


End WeiboFetcher.

Module HotSearchFetcher.

Import Fetcher.

Section Validate.

Variable float_cmp : text -> Z -> option comparison.

Definition _validate_response (data : json) : outcome bool :=
  match data with
  | JObj m =>
      if code_is_200 float_cmp (dict_get (str "code") m) then
        Ok (match dict_get (str "result") m with
            | Some _ => true
            | None => false
            end)
      else
        _ <-- print (shown (dict_get (str "msg") m));
        Ok false
  | _ => Ok false
  end.

End Validate.

End HotSearchFetcher.

(** * The vocabulary of the statements *)

(** ** The data loader *)

Module LoaderSpec.

Import TrendAnalyzer.

(** A raw-data file name of the source: the source, [_raw_], anything,
    [.json]. *)
Definition is_raw_name (s : source) (name : text) : Prop :=
  exists stamp, name = (source_id s ++ str "_raw_") ++ stamp ++ str ".json".

(** The names of the directory that match the pattern of the source. *)
Definition raw_files (s : source) (d : dir) : list text :=
  List.filter (glob_match (raw_pattern s)) (names d).

(** Whether the directory holds a raw-data file of the source. *)
Definition has_raw_file (s : source) (d : dir) : bool :=
  existsb (glob_match (raw_pattern s)) (names d).

End LoaderSpec.

(** ** The grade counters *)

Module ReportSpec.

Import TrendAnalyzer ConfigLoader.

(** The score the counters see: the integer under [total_score], or 0. *)
Definition score (a : json) : Z :=
  match a with
  | JObj m =>
      match dict_get key_total_score m with
      | Some (JInt n) => n
      | _ => 0%Z
      end
  | _ => 0%Z
  end.

(** A record whose [total_score] is an integer or is absent. *)
Definition int_scored (a : json) : bool :=
  match a with
  | JObj m =>
      match dict_get key_total_score m with
      | None | Some (JInt _) => true
      | Some _ => false
      end
  | _ => false
  end.

(** A record without a [total_score] field. *)
Definition lacks_score (a : json) : bool :=
  match a with
  | JObj m =>
      match dict_get key_total_score m with
      | None => true
      | Some _ => false
      end
  | _ => false
  end.

Definition excellent_score (c : config) (a : json) : bool :=
  (grade_excellent c <=? score a)%Z.

Definition good_score (c : config) (a : json) : bool :=
  (grade_good c <=? score a)%Z && (score a <? grade_excellent c)%Z.

Definition average_score (c : config) (a : json) : bool :=
  negb (excellent_score c a) && negb (good_score c a).

Definition count (p : json -> bool) (l : list json) : Z :=
  Z.of_nat (length (List.filter p l)).

(** Whether a test of the renderer answers [True] on an entry. *)
Definition holds (p : json -> outcome bool) (a : json) : bool :=
  match p a with
  | Ok true => true
  | _ => false
  end.

End ReportSpec.

(** ** The environment overrides *)

Module ConfigSpec.

Import ConfigLoader.

Definition TOPIC_COUNT_VAR : text := str "WEIBO_SKILL_TOPIC_COUNT".

(** The steps of [_load_env_overrides]: the API key, the topic count, and
    the data directory with the log level. *)
Section Steps.

Variable upper : text -> text.
Variable environ : gmap text text.

Definition key_step (c0 : config) : config :=
  match truthy (environ !! str "TIANAPI_KEY") with
  | Some k => set_api_key k c0
  | None => c0
  end.

Definition topic_step (c0 : config) : outcome config :=
  match truthy (environ !! TOPIC_COUNT_VAR) with
  | Some s =>
      if isdigit s then
        match int_of_digits s with
        | Some n => Ok (set_topic_count n c0)
        | None => Raise ValueError
        end
      else Ok c0
  | None => Ok c0
  end.

Definition last_steps (c0 : config) : config :=
  let c1 :=
    match truthy (environ !! str "WEIBO_SKILL_DATA_DIR") with
    | Some v => set_data_dir v c0
    | None => c0
    end in
  match truthy (environ !! str "WEIBO_SKILL_LOG_LEVEL") with
  | Some v => set_log_level (upper v) c1
  | None => c1
  end.

End Steps.

End ConfigSpec.

(** ** The parser *)

Module JsonSpec.

(** The text is empty or starts with a character outside [p]. *)
Definition head_not (p : N -> bool) (x : text) : Prop :=
  match x with
  | [] => True
  | c :: _ => p c = false
  end.

(** The characters that can continue a number. *)
Definition num_char (c : N) : bool :=
  is_digit c || (c =? 46) || (c =? 101) || (c =? 69).

Definition num_safe (x : text) : Prop := head_not num_char x.

Definition is_e (c : N) : bool := (c =? 101) || (c =? 69).

(** A successful parse of a value, of the elements of an array from one
    element on, and of the members of an object from one key on, splits
    its input into the text it consumed and the rest it returns; the same
    consumed text in front of any other rest gives the same value, with
    the same nesting allowed and any fuel of at least twice the length
    consumed.  After a value the rest must not continue a number. *)
Definition scan_local (f : nat) : Prop :=
  forall depth s v r,
    scan_once f depth s = POk (v, r) ->
    exists c, s = c ++ r /\ c <> [] /\
              (forall l, v = JArr l -> exists mid, c = 91 :: mid ++ [93]) /\
              forall f' r', (2 * length c <= f')%nat -> num_safe r' ->
                            scan_once f' depth (c ++ r') = POk (v, r').

Definition items_local (f : nat) : Prop :=
  forall depth s acc v r,
    parse_items f depth s acc = POk (v, r) ->
    exists c, s = c ++ r /\ (exists c0, c = c0 ++ [93]) /\
              forall f' r', (2 * length c <= f')%nat ->
                            parse_items f' depth (c ++ r') acc = POk (v, r').

Definition members_local (f : nat) : Prop :=
  forall depth s acc v r,
    parse_members f depth s acc = POk (v, r) ->
    exists c, s = c ++ r /\ c <> [] /\ (forall l, v <> JArr l) /\
              forall f' r', (2 * length c <= f')%nat ->
                            parse_members f' depth (c ++ r') acc = POk (v, r').

End JsonSpec.

(** ** The extraction and the repair chain *)

Module ParsePathSpec.

Import Regex TrendAnalyzer.

(** No rule of the chain has a match in the text. *)
Definition rule_free (t : text) : bool :=
  forallb (fun rule => match search (fst rule) t with
                       | None => true
                       | Some _ => false
                       end) rules.

(** The candidates of [[\s\S]*\]] in the order tried: the closing bracket
    is looked for from the end of the text backwards. *)
Definition close_after_star (g : option text) (s : text)
  : list (option text * text) :=
  flat_map (fun m => matches (Chr 93) (fst m) (snd m))
           (List.map (pair g) (star_rests anychar s)).

(** A text made of a bracketed span between a part without an opening
    bracket and a part without a closing bracket. *)
Definition around (span : text) (x : text) : Prop :=
  exists a b, x = a ++ span ++ b /\ (91 ∉ a) /\ (93 ∉ b).

(** The least number of characters a match of the pattern takes. *)
Fixpoint min_len (r : regex) : nat :=
  match r with
  | Chr _ | Cls _ | Plus _ => 1
  | Lit w => length w
  | Star _ | Ahead _ => 0
  | Cat r1 r2 => min_len r1 + min_len r2
  | Alt r1 r2 => Nat.min (min_len r1) (min_len r2)
  | Grp r1 => min_len r1
  end.

End ParsePathSpec.

(** ** Clock readings, card styles and ancestors *)

Module ClockSpec.

Import TrendAnalyzer.

(** A clock reading whose fields have the width [strftime] prints them
    with: four digits for the year, two for every other field. *)
Definition printable (t : datetime) : Prop :=
  year t < 10000 /\ month t < 100 /\ day t < 100 /\
  hour t < 100 /\ minute t < 100 /\ second t < 100.

(** The fields as one number: the chronological order of readings is the
    order of these numbers. *)
Definition instant (t : datetime) : N :=
  ((((year t * 100 + month t) * 100 + day t) * 100 + hour t) * 100
   + minute t) * 100 + second t.

(** The name [{source}_raw_{timestamp}.json]. *)
Definition raw_name (s : source) (stamp : text) : text :=
  (source_id s ++ str "_raw_") ++ stamp ++ str ".json".

(** The three-way comparison of two [str]. *)
Fixpoint text_compare (a b : text) : comparison :=
  match a, b with
  | [], [] => Eq
  | [], _ :: _ => Lt
  | _ :: _, [] => Gt
  | x :: a', y :: b' =>
      match x ?= y with
      | Eq => text_compare a' b'
      | c => c
      end
  end.

(** Comparison by the first component, then by the second. *)
Definition lex (c1 c2 : comparison) : comparison :=
  match c1 with
  | Eq => c2
  | _ => c1
  end.

End ClockSpec.

Module CardSpec.


(** A float is a NaN against every integer or against none. *)
Definition nan_or_not (float_cmp : text -> Z -> option comparison) : Prop :=
  forall lexeme n m, float_cmp lexeme n = None -> float_cmp lexeme m = None.

End CardSpec.

Module PathSpec.

Import PathManager.

(** The [n]-th ancestor. *)
Definition up (n : nat) (p : path) : path := Nat.iter n parent p.

(** The first of the candidates that holds [.claude], and the working
    directory when none does; a look-up that raises ends the search. *)
Fixpoint nearest (exists_ : path -> outcome bool) (cwd : outcome path)
         (candidates : list path) : outcome path :=
  match candidates with
  | [] => cwd
  | p :: ps =>
      found <-- exists_ (child p (str ".claude"));
      if found then Ok p else nearest exists_ cwd ps
  end.

End PathSpec.

Module FetcherSpec.


End FetcherSpec.

(** ** Example values *)

Module Fixtures.

Import Regex TrendAnalyzer ConfigLoader.

(** Values for closed examples. *)

Definition missing_comma_input : text :=
  js "[{'rank':1,'title':'A'}{'rank':2,'title':'B'}]".

Definition missing_comma_repaired : text :=
  js "[{'rank':1,'title':'A'},{'rank':2,'title':'B'}]".

Definition two_records : json :=
  JArr [ JObj [(str "rank", JInt 1); (str "title", JStr (str "A"))];
         JObj [(str "rank", JInt 2); (str "title", JStr (str "B"))] ].

(** The first substitution of the chain: [}\s*{] becomes [},{]. *)
Definition rule_object_boundary : regex * list ritem :=
  (cat3 (Chr 125) (Star space) (Chr 123), [RText (str "},{")]).

Definition noon : datetime :=
  {| year := 2025; month := 1; day := 2; hour := 12; minute := 0; second := 0 |}.

(** A fenced response whose array lacks a comma between its numbers. *)
Definition fenced_broken : text :=
  str "```json" ++ [10] ++ str "[1 2]" ++ [10] ++ str "```".

Definition fenced_broken_debug : text :=
  header_original ++ str "[1 2]" ++ header_extracted ++ str "[1 2]" ++
  header_fixed_json ++ str "[1 2]".

Definition empty_dir : dir := Some ∅.

Definition fenced_broken_dir : dir :=
  Some {[ str "debug_json_20250102_120000.txt" := fenced_broken_debug ]}.

Definition no_float : text -> Z -> option comparison := fun _ _ => None.

Definition zero_good_config : config := {|
  api_key := []; topic_count := 20; data_dir := str "data";
  log_level := str "INFO";
  report_filename_format := str "weibo_analysis_{timestamp}.html";
  intermediate_filename := str "weibo_analysis_{timestamp}.json";
  grade_excellent := 80; grade_good := 0
|}.

Definition ascii_upper (s : text) : text :=
  List.map (fun ch => if in_range 97 122 ch then ch - 32 else ch) s.

Definition plain_html : text -> text -> json -> Z * Z * Z -> outcome text :=
  fun _ timestamp _ _ => Ok timestamp.

Definition plain_name : text -> text -> text -> outcome text :=
  fun fmt source timestamp => Ok (source ++ timestamp).

Definition plain_dumps : json -> list text * outcome unit :=
  fun _ => ([], Ok ()).

(** The nesting a call has left when ten of the thousand levels of the
    interpreter are in use. *)
Definition room : nat := 990.



(** A one-element array followed by a blank and a lone surrogate. *)
Definition span_then_surrogate : text := str "[1] " ++ [55296].

(** A completion that answers with two records, whatever it is sent. *)
Definition two_answers : text :=
  js "[{'rank':1,'total_score':50},{'rank':7,'total_score':90}]".

Definition fixed_completion : text -> json -> outcome text :=
  fun _ _ => Ok two_answers.

Definition one_topic_config : config := set_topic_count 1 DEFAULT_CONFIG.

Definition one_topic_file : text := str "weibo_raw_20250101_000000.json".

Definition one_topic_dir : dir :=
  Some {[ one_topic_file := js "{'topics':[{'rank':1,'title':'A'}]}" ]}.

Definition douyin_only_dir : dir :=
  Some {[ str "douyin_raw_20250101_000000.json" := js "{'topics':[]}" ]}.

(** The values under [rank] of the records of a list. *)
Definition ranks (l : list json) : list json :=
  omap (fun a => match a with
                 | JObj m => dict_get (str "rank") m
                 | _ => None
                 end) l.

Definition quoted_true : text := js "['true']".

(** A response whose result is a text. *)
Definition text_result : json :=
  JObj [(str "code", JInt 200); (str "result", JStr (str "hot"))].

Definition two_words : json :=
  JObj [(str "code", JInt 200); (str "msg", JStr (str "success"));
        (str "result",
         JObj [(str "list",
                JArr [JObj [(str "word", JStr (str "A")); (str "hotnum", JInt 9)];
                      JObj [(str "title", JStr (str "B"))]])])].

(** A completion that answers with an array of numbers. *)
Definition numbers_completion : text -> json -> outcome text :=
  fun _ _ => Ok (str "[1, 2]").

(** A name format that knows the report names only. *)
Definition html_only_name : text -> text -> text -> outcome text :=
  fun fmt source timestamp =>
    if endswith fmt (str ".html") then Ok (source ++ timestamp)
    else Raise KeyError.

Definition one_second_later : datetime :=
  {| year := year noon; month := month noon; day := day noon;
     hour := hour noon; minute := minute noon; second := second noon + 1 |}.

End Fixtures.

(** * Properties *)

(** ** Text: order and stripping *)

Module PyStrFacts.

Lemma text_leb_refl (a : text) : text_leb a a = true.
Proof.
  induction a as [|x a IH]; simpl; [done|].
  rewrite N.eqb_refl, IH. by rewrite orb_true_r.
Qed.

Lemma text_leb_total (a b : text) : text_leb a b = true \/ text_leb b a = true.
Proof.
  revert b. induction a as [|x a IH]; intros [|y b]; simpl; auto.
  destruct (N.lt_trichotomy x y) as [Hlt|[->|Hgt]].
  - left. apply N.ltb_lt in Hlt. by rewrite Hlt.
  - rewrite N.eqb_refl, N.ltb_irrefl. simpl. apply IH.
  - right. apply N.ltb_lt in Hgt. by rewrite Hgt.
Qed.

Lemma text_leb_antisym (a b : text) :
  text_leb a b = true -> text_leb b a = true -> a = b.
Proof.
  revert b. induction a as [|x a IH]; intros [|y b]; simpl; try done.
  intros H1 H2.
  apply orb_true_iff in H1 as [H1|H1]; apply orb_true_iff in H2 as [H2|H2].
  - apply N.ltb_lt in H1, H2. lia.
  - apply N.ltb_lt in H1. apply andb_true_iff in H2 as [H2 _].
    apply N.eqb_eq in H2. lia.
  - apply N.ltb_lt in H2. apply andb_true_iff in H1 as [H1 _].
    apply N.eqb_eq in H1. lia.
  - apply andb_true_iff in H1 as [H1 H1'].
    apply andb_true_iff in H2 as [_ H2'].
    apply N.eqb_eq in H1. subst y. f_equal. by apply IH.
Qed.

Lemma text_leb_trans (a b c : text) :
  text_leb a b = true -> text_leb b c = true -> text_leb a c = true.
Proof.
  revert b c. induction a as [|x a IH]; intros [|y b] [|z c]; simpl; try done.
  intros H1 H2.
  apply orb_true_iff in H1 as [H1|H1]; apply orb_true_iff in H2 as [H2|H2].
  - apply N.ltb_lt in H1, H2.
    assert (x < z) as Hxz by lia. apply N.ltb_lt in Hxz. by rewrite Hxz.
  - apply andb_true_iff in H2 as [H2 _]. apply N.eqb_eq in H2. subst z.
    by rewrite H1.
  - apply andb_true_iff in H1 as [H1 _]. apply N.eqb_eq in H1. subst y.
    by rewrite H2.
  - apply andb_true_iff in H1 as [H1 H1'].
    apply andb_true_iff in H2 as [H2 H2'].
    apply N.eqb_eq in H1, H2. subst y z.
    rewrite N.eqb_refl, (IH b c H1' H2'). by rewrite orb_true_r.
Qed.

Lemma text_eqb_eq (a b : text) : text_eqb a b = true <-> a = b.
Proof.
  revert b. induction a as [|x a IH]; intros [|y b]; simpl; try done.
  rewrite andb_true_iff, N.eqb_eq, IH. split.
  - by intros [-> ->].
  - intros [= -> ->]. done.
Qed.


(** *** Stripping *)

Lemma lstrip_split p s :
  exists w, s = w ++ lstrip p s /\ forallb p w = true.
Proof.
  induction s as [|x s (w & Hw & Hall)]; simpl.
  - by exists [].
  - destruct (p x) eqn:Hp.
    + exists (x :: w). simpl. rewrite Hp, Hall. split; [by f_equal|done].
    + by exists [].
Qed.

Lemma lstrip_head p s x r : lstrip p s = x :: r -> p x = false.
Proof.
  induction s as [|y s IH]; simpl; [done|].
  destruct (p y) eqn:Hp; [done|]. by intros [= <- _].
Qed.

Lemma lstrip_app_keep p a x b :
  p x = false -> lstrip p (a ++ x :: b) = lstrip p a ++ x :: b.
Proof.
  intros Hx. induction a as [|y a IH]; simpl; [by rewrite Hx|].
  by destruct (p y).
Qed.

Lemma lstrip_all p s : forallb p s = true -> lstrip p s = [].
Proof.
  induction s as [|y s IH]; simpl; [done|].
  destruct (p y); simpl; [done|discriminate].
Qed.

Lemma lstrip_nil_all p s : lstrip p s = [] -> forallb p s = true.
Proof.
  induction s as [|y s IH]; simpl; [done|].
  destruct (p y); simpl; [done|discriminate].
Qed.

Lemma lstrip_app_stop p w x r :
  forallb p w = true -> p x = false -> lstrip p (w ++ x :: r) = x :: r.
Proof.
  intros Hw Hx. rewrite lstrip_app_keep by done. by rewrite lstrip_all.
Qed.

Lemma lstrip_suffix p s : exists w, s = w ++ lstrip p s.
Proof. destruct (lstrip_split p s) as (w & Hw & _). eauto. Qed.

Lemma rstrip_app_keep p a x b :
  p x = false -> rstrip p (a ++ x :: b) = a ++ x :: rstrip p b.
Proof.
  intros Hx. unfold rstrip. rewrite rev_app_distr. simpl.
  rewrite <- app_assoc. simpl. rewrite lstrip_app_keep by done.
  rewrite rev_app_distr. simpl. rewrite rev_involutive.
  by rewrite <- app_assoc.
Qed.

Lemma rstrip_all p s : forallb p s = true -> rstrip p s = [].
Proof.
  intros H. unfold rstrip. rewrite lstrip_all; [done|].
  rewrite forallb_forall in *. intros x Hx. apply H. by apply in_rev.
Qed.

Lemma rstrip_prefix p s : exists w, s = rstrip p s ++ w.
Proof.
  unfold rstrip. destruct (lstrip_suffix p (rev s)) as [w Hw].
  exists (rev w). rewrite <- rev_app_distr, <- Hw. by rewrite rev_involutive.
Qed.

(** Stripping a text that is padded with blanks around a core that
    neither starts nor ends with a blank gives the core. *)
Lemma strip_padded p1 p2 a m b :
  forallb isspace p1 = true -> forallb isspace p2 = true ->
  isspace a = false -> isspace b = false ->
  strip (p1 ++ (a :: m ++ [b]) ++ p2) = a :: m ++ [b].
Proof.
  intros H1 H2 Ha Hb. unfold strip.
  change ((a :: m ++ [b]) ++ p2) with (a :: (m ++ [b]) ++ p2).
  rewrite lstrip_app_stop by done.
  replace (a :: (m ++ [b]) ++ p2) with ((a :: m) ++ b :: p2)
    by (simpl; by rewrite <- app_assoc).
  rewrite rstrip_app_keep by done. rewrite rstrip_all by done.
  simpl. done.
Qed.


(** *** Prefixes and suffixes *)


Lemma startswith_inv s p : startswith s p = true -> exists x, s = p ++ x.
Proof.
  revert s. induction p as [|a p IH]; intros s; simpl; [eauto|].
  destruct s as [|b s]; [done|].
  intros H. apply andb_true_iff in H as [Hab Hs]. apply N.eqb_eq in Hab.
  subst b. destruct (IH s Hs) as [x ->]. eauto.
Qed.

Lemma startswith_app_inv a x b p :
  startswith (a ++ x :: b) p = true -> x ∉ p -> exists a', a = p ++ a'.
Proof.
  revert a. induction p as [|y p IH]; intros a; simpl; [eauto|].
  intros H Hx. destruct a as [|z a]; simpl in H.
  - apply andb_true_iff in H as [Hxy _]. apply N.eqb_eq in Hxy. subst y.
    exfalso. apply Hx. apply list_elem_of_here.
  - apply andb_true_iff in H as [Hzy Hs]. apply N.eqb_eq in Hzy. subst z.
    destruct (IH a Hs) as [a' ->]; [|eauto].
    intros Hin. apply Hx. by apply list_elem_of_further.
Qed.

Lemma startswith_head_ne a s b p :
  a <> b -> startswith (a :: s) (b :: p) = false.
Proof. intros H. simpl. apply N.eqb_neq in H. by rewrite H. Qed.



Lemma endswith_app_inv a x b p :
  endswith (a ++ x :: b) p = true -> x ∉ p -> exists b', b = b' ++ p.
Proof.
  unfold endswith. rewrite rev_app_distr. simpl. rewrite <- app_assoc. simpl.
  intros H Hx. apply startswith_app_inv in H as [b' Hb'].
  - exists (rev b'). rewrite <- (rev_involutive b), Hb', rev_app_distr.
    by rewrite rev_involutive.
  - intros Hin. apply Hx. apply list_elem_of_In. apply in_rev.
    by apply list_elem_of_In.
Qed.

Lemma slice_from_app p x : slice_from (length p) (p ++ x) = x.
Proof. unfold slice_from. apply drop_app_length. Qed.

Lemma slice_but_last_app x p :
  slice_but_last (length p) (x ++ p) = x.
Proof.
  unfold slice_but_last. rewrite length_app.
  replace (length x + length p - length p)%nat with (length x) by lia.
  apply take_app_length.
Qed.

End PyStrFacts.

(** ** The data loader *)

Module LoaderFacts.

Import TrendAnalyzer PyStrFacts LoaderSpec.

Lemma elem_of_raw_files s d f :
  f ∈ raw_files s d <-> f ∈ names d /\ glob_match (raw_pattern s) f = true.
Proof.
  unfold raw_files. rewrite !list_elem_of_In, filter_In. done.
Qed.

Lemma sorted_desc_nil l : sorted_desc l = [] -> l = [].
Proof.
  destruct l as [|x l]; [done|]. simpl.
  destruct (sorted_desc l) as [|y l']; simpl; [done|].
  by destruct (text_leb y x).
Qed.

(** The head of the sorted list is a greatest element. *)
Lemma sorted_desc_head l h t :
  sorted_desc l = h :: t ->
  h ∈ l /\ forall g, g ∈ l -> text_leb g h = true.
Proof.
  revert h t. induction l as [|x l IH]; intros h t; simpl; [done|].
  destruct (sorted_desc l) as [|y l'] eqn:Hs.
  - apply sorted_desc_nil in Hs. subst l. simpl. intros [= <- <-].
    split; [apply list_elem_of_here|].
    intros g Hg. apply list_elem_of_singleton in Hg. subst g. apply text_leb_refl.
  - destruct (IH y l' eq_refl) as [Hy Hmax]. simpl.
    destruct (text_leb y x) eqn:Hyx; intros [= <- <-].
    + split; [apply list_elem_of_here|].
      intros g Hg. apply elem_of_cons in Hg as [->|Hg]; [apply text_leb_refl|].
      eapply text_leb_trans; [by apply Hmax|done].
    + split; [by apply list_elem_of_further|].
      intros g Hg. apply elem_of_cons in Hg as [->|Hg]; [|by apply Hmax].
      destruct (text_leb_total x y) as [H|H]; [done|congruence].
Qed.

Lemma has_raw_file_false s d :
  has_raw_file s d = false <-> raw_files s d = [].
Proof.
  unfold has_raw_file, raw_files. induction (names d) as [|x l IH]; simpl; [done|].
  destruct (glob_match (raw_pattern s) x); simpl; [|done].
  split; discriminate.
Qed.

(** *** The glob pattern *)

Lemma glob_match_literal p q name :
  glob_match (List.map GChar p ++ q) name = true <->
  exists rest, name = p ++ rest /\ glob_match q rest = true.
Proof.
  revert name. induction p as [|c p IH]; intros name; simpl.
  - split; [eauto|]. by intros (rest & -> & H).
  - destruct name as [|x name].
    + split; [done|]. by intros (rest & Hn & _).
    + rewrite andb_true_iff, N.eqb_eq, IH. split.
      * intros (-> & rest & -> & H). eauto.
      * intros (rest & [= -> ->] & H). eauto.
Qed.

Lemma glob_match_star q name :
  glob_match (GStar :: q) name = true <->
  exists a b, name = a ++ b /\ glob_match q b = true.
Proof.
  induction name as [|x name IH].
  - simpl. rewrite orb_false_r. split.
    + intros H. by exists [], [].
    + intros (a & b & Hab & H). symmetry in Hab.
      apply app_eq_nil in Hab as [-> ->]. done.
  - change (glob_match (GStar :: q) (x :: name))
      with (glob_match q (x :: name) || glob_match (GStar :: q) name).
    rewrite orb_true_iff, IH. split.
    + intros [H|(a & b & -> & H)].
      * by exists [], (x :: name).
      * by exists (x :: a), b.
    + intros (a & b & Hab & H). destruct a as [|y a].
      * left. simpl in Hab. by subst b.
      * right. injection Hab as -> ->. eauto.
Qed.

Lemma glob_match_exact p name :
  glob_match (List.map GChar p) name = true <-> name = p.
Proof.
  revert name. induction p as [|c p IH]; intros [|x name]; simpl; try done.
  rewrite andb_true_iff, N.eqb_eq, IH. split.
  - by intros [-> ->].
  - by intros [= -> ->].
Qed.

(** The names the pattern of a source matches. *)
Lemma raw_pattern_matches s name :
  glob_match (raw_pattern s) name = true <-> is_raw_name s name.
Proof.
  unfold raw_pattern, is_raw_name. rewrite glob_match_literal. split.
  - intros (rest & -> & H). change ([GStar] ++ List.map GChar (str ".json"))
      with (GStar :: List.map GChar (str ".json")) in H.
    apply glob_match_star in H as (a & b & -> & H).
    apply glob_match_exact in H as ->. by exists a.
  - intros (stamp & ->). eexists. split; [done|].
    change ([GStar] ++ List.map GChar (str ".json"))
      with (GStar :: List.map GChar (str ".json")).
    apply glob_match_star. exists stamp, (str ".json"). split; [done|].
    by apply glob_match_exact.
Qed.

Lemma get_latest_missing s d :
  has_raw_file s d = false -> get_latest_data_file s d = Raise FileNotFoundError.
Proof.
  intros H. apply has_raw_file_false in H. unfold get_latest_data_file.
  fold (raw_files s d). by rewrite H.
Qed.

(** C8.  For every content of the data directory, the loader returns a
    file name exactly when that name is in the directory, matches the
    pattern [{source}_raw_*.json] and is greater than or equal to, in the
    order of text, every name of the directory that matches; and it raises
    [FileNotFoundError] exactly when no name of the directory matches. *)
Theorem get_latest_data_file_greatest (s : source) (d : dir) :
  (forall f,
      get_latest_data_file s d = Ok f <->
      f ∈ names d /\ glob_match (raw_pattern s) f = true /\
      forall g, g ∈ names d -> glob_match (raw_pattern s) g = true ->
                text_leb g f = true) /\
  (get_latest_data_file s d = Raise FileNotFoundError <->
   forall g, g ∈ names d -> glob_match (raw_pattern s) g = false) /\
  (forall e, get_latest_data_file s d = Raise e -> e = FileNotFoundError).
Proof.
  unfold get_latest_data_file. fold (raw_files s d).
  destruct (sorted_desc (raw_files s d)) as [|h t] eqn:Hs.
  - apply sorted_desc_nil in Hs. split; [|split].
    + intros f. split; [done|]. intros (Hin & Hm & _).
      assert (f ∈ raw_files s d) as Hf by by apply elem_of_raw_files.
      rewrite Hs in Hf. by apply elem_of_nil in Hf.
    + split; [|done]. intros _ g Hin.
      destruct (glob_match (raw_pattern s) g) eqn:Hm; [|done].
      assert (g ∈ raw_files s d) as Hg by by apply elem_of_raw_files.
      rewrite Hs in Hg. by apply elem_of_nil in Hg.
    + by intros e [= <-].
  - destruct (sorted_desc_head _ _ _ Hs) as [Hh Hmax].
    apply elem_of_raw_files in Hh as [Hin Hm]. split; [|split].
    + intros f. split.
      * intros [= <-]. split; [done|]. split; [done|].
        intros g Hg Hgm. apply Hmax. by apply elem_of_raw_files.
      * intros (Hfin & Hfm & Hfmax). f_equal.
        apply text_leb_antisym.
        -- by apply Hfmax.
        -- apply Hmax. by apply elem_of_raw_files.
    + split; [done|]. intros Hnone. specialize (Hnone h Hin). congruence.
    + done.
Qed.

End LoaderFacts.

(** ** The grade counters *)

Module ReportFacts.

Import TrendAnalyzer ConfigLoader ReportSpec Fixtures.

Section Counters.

Variable float_cmp : text -> Z -> option comparison.
Variable c : config.

Lemma total_score_of_int_scored a :
  int_scored a = true -> total_score_of a = Ok (JInt (score a)).
Proof.
  destruct a as [| | | | |l|m]; simpl; try done.
  destruct (dict_get key_total_score m) as [[]|]; simpl; done.
Qed.

Lemma score_ge_int k n : score_ge float_cmp (JInt k) n = Ok (n <=? k)%Z.
Proof.
  unfold score_ge. simpl. f_equal.
  destruct (Z.compare_spec k n); destruct (Z.leb_spec n k); lia || done.
Qed.

Lemma score_lt_int k n : score_lt float_cmp (JInt k) n = Ok (k <? n)%Z.
Proof.
  reflexivity.
Qed.

Lemma is_excellent_int_scored a :
  int_scored a = true -> is_excellent float_cmp c a = Ok (excellent_score c a).
Proof.
  intros H. unfold is_excellent. rewrite (total_score_of_int_scored a H).
  cbv beta iota delta [bind]. apply score_ge_int.
Qed.

Lemma is_good_int_scored a :
  int_scored a = true -> is_good float_cmp c a = Ok (good_score c a).
Proof.
  intros H. unfold is_good, good_score.
  rewrite (total_score_of_int_scored a H). cbv beta iota delta [bind].
  rewrite score_ge_int. destruct (grade_good c <=? score a)%Z; [|done].
  apply score_lt_int.
Qed.

Lemma count_if_pure (p : json -> outcome bool) (q : json -> bool) l :
  Forall (fun a => p a = Ok (q a)) l -> count_if p l = Ok (count q l).
Proof.
  unfold count. induction 1 as [|a l Ha _ IH]; simpl; [done|].
  rewrite Ha. simpl. rewrite IH. simpl. f_equal.
  destruct (q a); simpl; lia.
Qed.

Lemma count_partition l :
  (count (excellent_score c) l + count (good_score c) l
   + count (average_score c) l = Z.of_nat (length l))%Z.
Proof.
  unfold count, average_score. induction l as [|a l IH]; simpl; [done|].
  assert (excellent_score c a = true -> good_score c a = false) as Hdisj.
  { unfold excellent_score, good_score. intros H.
    apply Z.leb_le in H. apply andb_false_iff. right. apply Z.ltb_ge. lia. }
  destruct (excellent_score c a) eqn:He.
  - rewrite (Hdisj eq_refl). simpl. lia.
  - destruct (good_score c a); simpl; lia.
Qed.

Lemma lacks_score_zero a : lacks_score a = true -> score a = 0%Z.
Proof.
  destruct a as [| | | | |l|m]; simpl; try done.
  by destruct (dict_get key_total_score m).
Qed.

Lemma count_if_holds (p : json -> outcome bool) l n :
  count_if p l = Ok n -> n = count (holds p) l.
Proof.
  unfold count. revert n. induction l as [|a l IH]; intros n; simpl.
  - by intros [= <-].
  - unfold holds at 1. destruct (p a) as [b|e]; [|done]. simpl.
    destruct (count_if p l) as [n'|e]; [|done]. simpl. intros [= <-].
    rewrite (IH n' eq_refl). destruct b; simpl; lia.
Qed.

Lemma excellent_not_good a :
  holds (is_excellent float_cmp c) a = true ->
  holds (is_good float_cmp c) a = false.
Proof.
  unfold holds, is_excellent, is_good.
  destruct (total_score_of a) as [x|e]; [|done]. cbv beta iota delta [bind].
  unfold score_ge, score_lt.
  destruct (score_cmp float_cmp x (grade_excellent c)) as [[[| |]|]|e];
    cbv beta iota delta [bind]; try done;
    destruct (score_cmp float_cmp x (grade_good c)) as [[[| |]|]|e'];
    cbv beta iota delta [bind]; done.
Qed.

Lemma count_disjoint (p q : json -> bool) l :
  (forall a, p a = true -> q a = false) ->
  (0 <= count p l /\ 0 <= count q l /\
   count p l + count q l <= Z.of_nat (length l))%Z.
Proof.
  intros Hpq. unfold count. induction l as [|a l IH]; simpl; [lia|].
  destruct (p a) eqn:Hp.
  - rewrite (Hpq a Hp). simpl. lia.
  - destruct (q a); simpl; lia.
Qed.

(** C9, as amended.  Whenever the renderer computes its three counters
    for a list, they are not negative and sum to the length of the list.
    For a list of records whose [total_score] is an integer or is absent,
    [excellent] counts the entries with a score at or above the excellent
    threshold, [good] those from the good threshold up to, and not
    including, the excellent threshold, and [average] the remaining
    entries.  An entry without [total_score] has score 0; it is counted as
    average exactly when both thresholds are positive. *)
Theorem grade_counts_partition (l : list json) :
  (forall e g a,
      grade_counts float_cmp c (JArr l) = Ok (e, g, a) ->
      (e + g + a = Z.of_nat (length l) /\ 0 <= e /\ 0 <= g /\ 0 <= a)%Z) /\
  (forallb int_scored l = true ->
   grade_counts float_cmp c (JArr l)
   = Ok (count (excellent_score c) l, count (good_score c) l,
         count (average_score c) l)) /\
  (forall a, lacks_score a = true ->
             total_score_of a = Ok (JInt 0) /\ score a = 0%Z /\
             (average_score c a = true <->
              (0 < grade_good c /\ 0 < grade_excellent c)%Z)).
Proof.
  split; [|split].
  - intros e g a. unfold grade_counts. cbv beta iota delta [bind iterate].
    destruct (count_if (is_excellent float_cmp c) l) as [e'|x] eqn:He; [|done].
    destruct (count_if (is_good float_cmp c) l) as [g'|x] eqn:Hg; [|done].
    intros [= <- <- <-].
    apply count_if_holds in He, Hg. subst e' g'.
    pose proof (count_disjoint _ _ l excellent_not_good). lia.
  - intros Hl. rewrite forallb_forall in Hl.
    assert (Forall (fun a => int_scored a = true) l) as Hall.
    { apply List.Forall_forall. exact Hl. }
    unfold grade_counts. simpl.
    rewrite (count_if_pure _ (excellent_score c)).
    2:{ eapply Forall_impl; [exact Hall|]. apply is_excellent_int_scored. }
    simpl. rewrite (count_if_pure _ (good_score c)).
    2:{ eapply Forall_impl; [exact Hall|]. apply is_good_int_scored. }
    simpl. do 2 f_equal. pose proof (count_partition l). lia.
  - intros a Ha. pose proof (lacks_score_zero a Ha) as Hz.
    split; [|split; [done|]].
    + destruct a as [| | | | |l'|m]; simpl in *; try done.
      by destruct (dict_get key_total_score m).
    + unfold average_score, excellent_score, good_score. rewrite Hz.
      rewrite andb_true_iff, !negb_true_iff, andb_false_iff.
      rewrite Z.leb_gt, Z.leb_gt, Z.ltb_ge. lia.
Qed.

End Counters.

(** C9, as stated, fails: with the good threshold configured as 0, the
    one-entry list whose record has no [total_score] is counted as good,
    and the average counter is 0. *)
Lemma lacking_score_counted_good :
  lacks_score (JObj []) = true /\
  grade_counts no_float zero_good_config (JArr [JObj []])
  = Ok (0, 1, 0)%Z.
Proof. split; reflexivity. Qed.

Lemma grade_counts_partition_witness :
  forallb int_scored [JObj [(key_total_score, JInt 85)]; JObj []] = true /\
  grade_counts no_float DEFAULT_CONFIG
               (JArr [JObj [(key_total_score, JInt 85)]; JObj []])
  = Ok (1, 0, 1)%Z.
Proof.
  split; [reflexivity|].
  apply (grade_counts_partition no_float DEFAULT_CONFIG
           [JObj [(key_total_score, JInt 85)]; JObj []]).
  reflexivity.
Defined.

(** An entry that is not a record, or a score that is not a number, makes
    the renderer raise before it has any counter. *)
Example grade_counts_not_a_record :
  grade_counts no_float DEFAULT_CONFIG (JArr [JInt 1]) = Raise AttributeError /\
  grade_counts no_float DEFAULT_CONFIG
               (JArr [JObj [(key_total_score, JStr (str "high"))]])
  = Raise TypeError.
Proof. split; reflexivity. Qed.

End ReportFacts.

(** ** The environment overrides *)

Module ConfigFacts.

Import ConfigLoader ConfigSpec Fixtures.

Lemma decimal_in_Some tbl ch :
  in_ranges tbl ch = true <-> exists v, decimal_in tbl ch = Some v.
Proof.
  induction tbl as [|[lo hi] tbl IH]; simpl.
  - split; [done|]. by intros [v Hv].
  - destruct (in_range lo hi ch); simpl; [|exact IH].
    split; [eauto|done].
Qed.

Lemma digits_value_decimal s acc v :
  digits_value acc s = Some v -> forallb isdecimal_char s = true.
Proof.
  revert acc. induction s as [|ch s IH]; intros acc; simpl; [done|].
  destruct (decimal_value ch) as [dv|] eqn:Hd; [|done].
  intros H. apply andb_true_iff. split; [|by eapply IH].
  apply decimal_in_Some. by exists dv.
Qed.

Lemma digits_value_total s acc :
  forallb isdecimal_char s = true -> exists v, digits_value acc s = Some v.
Proof.
  revert acc. induction s as [|ch s IH]; intros acc; simpl; [eauto|].
  intros H. apply andb_true_iff in H as [Hc Hs].
  apply decimal_in_Some in Hc as [dv Hd]. unfold decimal_value. rewrite Hd.
  by apply IH.
Qed.

Lemma isdecimal_isdigit s :
  s <> [] -> forallb isdecimal_char s = true -> isdigit s = true.
Proof.
  intros Hne H. unfold isdigit. destruct s as [|ch s]; [done|].
  rewrite forallb_forall in H. apply forallb_forall. intros x Hx.
  unfold isdigit_char. by rewrite (H x Hx).
Qed.

Lemma isdigit_forallb s : isdigit s = true -> forallb isdigit_char s = true.
Proof. by destruct s. Qed.

Section Overrides.

Variable upper : text -> text.
Variable environ : gmap text text.
Variable c : config.

Lemma load_env_overrides_steps :
  _load_env_overrides upper environ c
  = match topic_step environ (key_step environ c) with
    | Ok c2 => Ok (last_steps upper environ c2)
    | Raise e => Raise e
    end.
Proof. reflexivity. Qed.

Lemma topic_count_key_step c0 :
  topic_count (key_step environ c0) = topic_count c0.
Proof. unfold key_step. by destruct (truthy _). Qed.

Lemma topic_count_last_steps c0 :
  topic_count (last_steps upper environ c0) = topic_count c0.
Proof. unfold last_steps. destruct (truthy _); by destruct (truthy _). Qed.

(** C10.  The override of [analysis.topic_count] is applied only when
    [WEIBO_SKILL_TOPIC_COUNT] is set and its value is a non-empty run of
    decimal digits, and the new count is then the number they write;
    when the variable is unset, empty, or has a character that is not a
    digit, loading succeeds and [topic_count] keeps its value. *)
Theorem topic_count_override :
  (forall c',
      _load_env_overrides upper environ c = Ok c' ->
      topic_count c' <> topic_count c ->
      exists s, environ !! TOPIC_COUNT_VAR = Some s /\ s <> [] /\
                forallb isdecimal_char s = true /\
                int_of_digits s = Some (topic_count c')) /\
  ((environ !! TOPIC_COUNT_VAR = None \/
    environ !! TOPIC_COUNT_VAR = Some [] \/
    exists s, environ !! TOPIC_COUNT_VAR = Some s /\
              forallb isdigit_char s = false) ->
   exists c', _load_env_overrides upper environ c = Ok c' /\
              topic_count c' = topic_count c).
Proof.
  rewrite load_env_overrides_steps. unfold topic_step. split.
  - intros c' Hload Hne.
    destruct (environ !! TOPIC_COUNT_VAR) as [[|ch s]|] eqn:Hv;
      cbv beta iota delta [truthy] in Hload.
    + injection Hload as <-.
      rewrite topic_count_last_steps, topic_count_key_step in Hne. done.
    + destruct (isdigit (ch :: s)) eqn:Hd.
      * destruct (int_of_digits (ch :: s)) as [n|] eqn:Hn; [|done].
        injection Hload as <-. rewrite topic_count_last_steps. simpl.
        exists (ch :: s). split; [done|]. split; [done|]. split; [|done].
        unfold int_of_digits in Hn.
        destruct (Nat.ltb _ _); [done|].
        destruct (digits_value 0 (ch :: s)) as [v|] eqn:Hdv; [|done].
        by eapply digits_value_decimal.
      * injection Hload as <-.
        rewrite topic_count_last_steps, topic_count_key_step in Hne. done.
    + injection Hload as <-.
      rewrite topic_count_last_steps, topic_count_key_step in Hne. done.
  - assert (exists c', Ok (last_steps upper environ (key_step environ c)) = Ok c' /\
                       topic_count c' = topic_count c) as Hkeep.
    { eexists. split; [done|].
      by rewrite topic_count_last_steps, topic_count_key_step. }
    intros H.
    destruct (environ !! TOPIC_COUNT_VAR) as [[|ch s]|] eqn:Hv;
      cbv beta iota delta [truthy]; try exact Hkeep.
    destruct (isdigit (ch :: s)) eqn:Hd; [|exact Hkeep].
    destruct H as [H|[H|(s' & H & Hs)]]; try done.
    injection H as <-.
    apply isdigit_forallb in Hd. congruence.
Qed.

End Overrides.

Lemma topic_count_override_witness :
  exists c', _load_env_overrides ascii_upper
               {[ TOPIC_COUNT_VAR := str "1O" ]} DEFAULT_CONFIG = Ok c' /\
             topic_count c' = 20%Z.
Proof.
  apply (topic_count_override ascii_upper
           {[ TOPIC_COUNT_VAR := str "1O" ]} DEFAULT_CONFIG).
  right. right. exists (str "1O"). split; reflexivity.
Defined.

(** A value of decimal digits is applied. *)
Example topic_count_override_applied :
  _load_env_overrides ascii_upper {[ TOPIC_COUNT_VAR := str "35" ]} DEFAULT_CONFIG
  = Ok (set_topic_count 35 DEFAULT_CONFIG).
Proof. reflexivity. Qed.

(** A superscript two passes [isdigit] and is refused by [int]: loading
    raises [ValueError]. *)
Example topic_count_superscript :
  _load_env_overrides ascii_upper {[ TOPIC_COUNT_VAR := [178] ]} DEFAULT_CONFIG
  = Raise ValueError.
Proof. reflexivity. Qed.

End ConfigFacts.

(** ** The normaliser: the literal repair scenario and the debug artifact *)

Module NormalizerFacts.

Import Regex TrendAnalyzer Fixtures.

(** C7.  Wherever the interpreter allows the two levels of nesting the
    text has: on the text with a comma missing between its two records,
    the first rule of the chain inserts the comma, the other rules change
    nothing, strict parsing fails on the input, and the normaliser
    returns the two records that the text with the comma parses to,
    leaving the data directory as it was. *)
Theorem missing_comma_repair (limit : nat) :
  (2 <= limit)%nat ->
  (exists rest, rules = rule_object_boundary :: rest /\
                apply_rule missing_comma_input rule_object_boundary
                = missing_comma_repaired /\
                fold_left apply_rule rest missing_comma_repaired
                = missing_comma_repaired) /\
  _fix_json missing_comma_input = missing_comma_repaired /\
  json_loads limit missing_comma_input
  = Raise (JSONDecodeError missing_comma_input) /\
  json_loads limit missing_comma_repaired = Ok two_records /\
  (forall now d,
      parse_response limit now missing_comma_input d = (Ok two_records, d)).
Proof.
  intros Hlimit. destruct limit as [|[|limit]]; [lia|lia|].
  split; [|split; [|split; [|split]]].
  - eexists. split; [reflexivity|]. split; vm_compute; reflexivity.
  - vm_compute. reflexivity.
  - vm_compute. reflexivity.
  - vm_compute. reflexivity.
  - intros now d. vm_compute. reflexivity.
Qed.

Lemma missing_comma_repair_witness :
  (2 <= room)%nat /\
  parse_response room noon missing_comma_input empty_dir
  = (Ok two_records, empty_dir).
Proof.
  split; [unfold room; lia|].
  apply (missing_comma_repair room); unfold room; lia.
Defined.

Lemma json_loads_error_doc limit s doc :
  json_loads limit s = Raise (JSONDecodeError doc) -> doc = s.
Proof.
  unfold json_loads. destruct (startswith s [65279]); [congruence|].
  destruct (scan_once (fuel_for s) limit (skip_ws s)) as [[v r]|[]]; try done.
  - destruct (skip_ws r); [done|congruence].
  - congruence.
Qed.

(** The calls of [write] raise nothing but [UnicodeEncodeError], and
    when none raises the file holds the parts one after the other. *)
Lemma write_all_raise parts content e :
  fst (write_all parts content) = Raise e -> e = UnicodeEncodeError.
Proof.
  revert content. induction parts as [|part rest IH]; intros content; simpl.
  - done.
  - destruct (encodable part); [apply IH|]. simpl. congruence.
Qed.

Lemma write_all_ok parts content :
  fst (write_all parts content) = Ok () ->
  snd (write_all parts content) = content ++ concat parts.
Proof.
  revert content. induction parts as [|part rest IH]; intros content; simpl.
  - intros _. by rewrite app_nil_r.
  - destruct (encodable part); [|done].
    intros H. rewrite (IH _ H). by rewrite <- app_assoc.
Qed.

Lemma save_debug_and_raise_decode now parts e d doc d' :
  save_debug_and_raise now parts e d = (Raise (JSONDecodeError doc), d') ->
  exists files, d = Some files /\
                d' = Some (<[debug_name now := concat parts]> files) /\
                e = JSONDecodeError doc.
Proof.
  unfold save_debug_and_raise, write_parts.
  destruct (name_encodable (debug_name now)); [|done].
  destruct d as [files|]; [|done].
  destruct (fst (write_all parts [])) as [[]|e'] eqn:Hw.
  - rewrite (write_all_ok _ _ Hw). cbn [app]. intros [= -> <-]. eauto.
  - rewrite (write_all_raise _ _ _ Hw). done.
Qed.

(** C2, as amended.  Whenever the normaliser raises a structural-parse
    error, the data directory exists and differs from what it was by
    exactly one file, named [debug_json_] with the time stamp; the
    content of that file starts with the header of the original response
    followed by the response text as it is after trimming and fence
    stripping; and the error raised is the one that parsing the repaired
    text gave. *)
Theorem debug_artifact_on_parse_error limit now response d doc d' :
  parse_response limit now response d = (Raise (JSONDecodeError doc), d') ->
  exists files content,
    d = Some files /\
    d' = Some (<[debug_name now := content]> files) /\
    (exists rest,
        content = header_original ++ strip_fence response ++ rest) /\
    json_loads limit doc = Raise (JSONDecodeError doc) /\
    (doc = _fix_json (strip_fence response) \/
     exists extracted,
       search array_span (strip_fence response) = Some extracted /\
       doc = _fix_json extracted).
Proof.
  unfold parse_response.
  destruct (json_loads limit (strip_fence response))
    as [v|[doc0| | | | | | | |tag]]; try done.
  unfold print. destruct (encodable (take 500 (strip_fence response))); [|done].
  destruct (search array_span (strip_fence response)) as [extracted|] eqn:Hs.
  - destruct (json_loads limit extracted) as [v|[doc1| | | | | | | |tag]];
      try done.
    destruct (json_loads limit (_fix_json extracted))
      as [v|[doc2| | | | | | | |tag]] eqn:Hf; try done.
    intros H.
    apply save_debug_and_raise_decode in H as (files & -> & -> & [= ->]).
    pose proof (json_loads_error_doc _ _ _ Hf) as ->.
    eexists _, _. split; [done|]. split; [done|].
    split; [cbn [concat]; by eexists|].
    split; [done|]. right. by eexists.
  - destruct (json_loads limit (_fix_json (strip_fence response)))
      as [v|[doc2| | | | | | | |tag]] eqn:Hf; try done.
    intros H.
    apply save_debug_and_raise_decode in H as (files & -> & -> & [= ->]).
    pose proof (json_loads_error_doc _ _ _ Hf) as ->.
    eexists _, _. split; [done|]. split; [done|].
    split; [cbn [concat]; by eexists|].
    split; [done|]. by left.
Qed.

Lemma fenced_broken_outcome :
  parse_response room noon fenced_broken empty_dir
  = (Raise (JSONDecodeError (str "[1 2]")), fenced_broken_dir).
Proof. vm_compute. reflexivity. Qed.

(** C2, as stated, fails: the normaliser raises a structural-parse error
    on the fenced response, and the one file it writes does not contain
    the response as it was received (the fence is gone). *)
Lemma debug_artifact_not_verbatim :
  parse_response room noon fenced_broken empty_dir
  = (Raise (JSONDecodeError (str "[1 2]")), fenced_broken_dir) /\
  ~ exists pre post, fenced_broken_debug = pre ++ fenced_broken ++ post.
Proof.
  split; [exact fenced_broken_outcome|].
  intros (pre & post & H).
  assert (96 ∈ fenced_broken_debug) as Hin.
  { rewrite H. apply elem_of_app. right. apply elem_of_app. left.
    apply list_elem_of_here. }
  apply list_elem_of_In in Hin.
  assert (forallb (fun x => negb (x =? 96)) fenced_broken_debug = true) as Hall
    by (vm_compute; reflexivity).
  rewrite forallb_forall in Hall. specialize (Hall _ Hin). done.
Qed.

Lemma debug_artifact_on_parse_error_witness :
  exists (files : gmap text text) (content : text),
    empty_dir = Some files /\
    fenced_broken_dir = Some (<[debug_name noon := content]> files) /\
    (exists rest,
        content = header_original ++ strip_fence fenced_broken ++ rest) /\
    json_loads room (str "[1 2]") = Raise (JSONDecodeError (str "[1 2]")) /\
    (str "[1 2]" = _fix_json (strip_fence fenced_broken) \/
     exists extracted,
       search array_span (strip_fence fenced_broken) = Some extracted /\
       str "[1 2]" = _fix_json extracted).
Proof.
  apply (debug_artifact_on_parse_error room noon fenced_broken empty_dir).
  vm_compute. reflexivity.
Defined.

End NormalizerFacts.

(** ** The run: missing input, and what bounds the result *)

Module PipelineFacts.

Import TrendAnalyzer ConfigLoader LoaderSpec LoaderFacts Fixtures.

Section Run.

Variable float_cmp : text -> Z -> option comparison.
Variable complete : text -> json -> outcome text.
Variable render_html : text -> text -> json -> Z * Z * Z -> outcome text.
Variable format_name : text -> text -> text -> outcome text.
Variable dump_chunks : json -> list text * outcome unit.
Variable file_limit : nat.
Variable limit : nat.

(** C5.  When the data directory holds no raw-data file of the
    requested source (or does not exist), the run returns status 1 and
    leaves the data directory as it was: no report, no index, no JSON
    result is written. *)
Theorem run_missing_raw_file (c : config) (s : source) (now : datetime)
        (d : dir) :
  has_raw_file s d = false ->
  run float_cmp complete render_html format_name dump_chunks file_limit limit
      c s now d = (1%Z, d).
Proof.
  intros H. unfold run. by rewrite (get_latest_missing s d H).
Qed.

Lemma slice_to_prefix {A} (n : Z) (l : list A) : slice_to n l `prefix_of` l.
Proof. unfold slice_to. destruct (0 <=? n)%Z; apply prefix_take. Qed.

Lemma slice_to_length {A} (n : Z) (l : list A) :
  (0 <= n)%Z -> (Z.of_nat (length (slice_to n l)) <= n)%Z.
Proof.
  intros Hn. unfold slice_to. apply Z.leb_le in Hn as Hb. rewrite Hb.
  rewrite length_take. lia.
Qed.

(** C3, as amended.  The topics sent in the prompt are the leading
    topics of the data file, at most [topic_count] of them when the
    count is not negative, so every topic sent is a topic of the file;
    what [analyze_topics] returns is what the normaliser makes of the
    response text alone: nothing compares it with the topics sent. *)
Theorem analyze_topics_sends_prefix (c : config) (s : source)
        (now : datetime) (data_file : text) (d : dir)
        (content : text) (m : list (text * json)) (topics : list json) :
  read_file data_file d = Ok content ->
  json_loads file_limit content = Ok (JObj m) ->
  dict_get key_topics m = Some (JArr topics) ->
  let sent := slice_to (topic_count c) topics in
  sent `prefix_of` topics /\
  (forall t, t ∈ sent -> t ∈ topics) /\
  ((0 <= topic_count c)%Z -> (Z.of_nat (length sent) <= topic_count c)%Z) /\
  analyze_topics complete file_limit limit c s now data_file d
  = match complete (source_name s) (JArr sent) with
    | Ok response => parse_response limit now response d
    | Raise e => (Raise e, d)
    end.
Proof.
  intros Hread Hload Htopics sent.
  split; [apply slice_to_prefix|].
  split.
  { intros t Ht. destruct (slice_to_prefix (topic_count c) topics) as [k Hk].
    rewrite Hk. apply elem_of_app. by left. }
  split; [apply slice_to_length|].
  unfold analyze_topics. rewrite Hread. simpl. rewrite Hload. simpl.
  rewrite Htopics. reflexivity.
Qed.

End Run.

Lemma run_missing_raw_file_witness :
  has_raw_file weibo douyin_only_dir = false /\
  run no_float fixed_completion plain_html plain_name plain_dumps room room
      DEFAULT_CONFIG weibo noon douyin_only_dir = (1%Z, douyin_only_dir).
Proof.
  split; [vm_compute; reflexivity|].
  apply (run_missing_raw_file no_float fixed_completion plain_html plain_name
           plain_dumps room room DEFAULT_CONFIG weibo noon douyin_only_dir).
  vm_compute. reflexivity.
Defined.

(** C3, as stated, fails: with a topic count of 1 and one topic of rank 1
    sent, a response of two records is returned as it is: the result has
    two entries, and the rank 7 was never sent. *)
Lemma result_not_bounded_by_topics_sent :
  exists sent result,
    topics_to_send (JObj [(key_topics,
                           JArr [JObj [(str "rank", JInt 1);
                                       (str "title", JStr (str "A"))]])])
                   (topic_count one_topic_config) = Ok (JArr sent) /\
    analyze_topics fixed_completion room room one_topic_config weibo noon
                   one_topic_file one_topic_dir
    = (Ok (JArr result), one_topic_dir) /\
    topic_count one_topic_config = 1%Z /\
    length result = 2%nat /\
    ranks sent = [JInt 1] /\
    ranks result = [JInt 1; JInt 7].
Proof.
  eexists _, _. split; [vm_compute; reflexivity|].
  split; [vm_compute; reflexivity|].
  split; [reflexivity|]. split; [reflexivity|]. split; reflexivity.
Qed.

Lemma analyze_topics_sends_prefix_witness :
  analyze_topics fixed_completion room room one_topic_config weibo noon
                 one_topic_file one_topic_dir
  = parse_response room noon two_answers one_topic_dir.
Proof.
  apply (analyze_topics_sends_prefix fixed_completion room room
           one_topic_config weibo noon one_topic_file one_topic_dir
           (js "{'topics':[{'rank':1,'title':'A'}]}")
           [(key_topics, JArr [JObj [(str "rank", JInt 1);
                                     (str "title", JStr (str "A"))]])]
           [JObj [(str "rank", JInt 1); (str "title", JStr (str "A"))]]);
    vm_compute; reflexivity.
Defined.

End PipelineFacts.

(** ** The parser reads no further than the value *)

Module JsonFacts.

Import JsonSpec.

Ltac norm_app :=
  repeat (rewrite <- app_assoc || rewrite <- app_comm_cons || rewrite app_nil_l).

Ltac app_length H :=
  repeat (rewrite length_app in H || rewrite length_cons in H).

Lemma head_not_app p a x :
  a <> [] -> head_not p a -> head_not p (a ++ x).
Proof. by destruct a. Qed.

Lemma num_safe_digit x : num_safe x -> head_not is_digit x.
Proof.
  destruct x as [|c x]; simpl; [done|]. unfold num_char.
  intros H. by repeat (apply orb_false_iff in H as [H _]).
Qed.

Lemma num_safe_dot x : num_safe x -> head_not (fun c => c =? 46) x.
Proof.
  destruct x as [|c x]; simpl; [done|]. unfold num_char.
  intros H. apply orb_false_iff in H as [H _].
  apply orb_false_iff in H as [H _]. by apply orb_false_iff in H as [_ H].
Qed.

Lemma num_safe_exp x :
  num_safe x -> head_not (fun c => (c =? 101) || (c =? 69)) x.
Proof.
  destruct x as [|c x]; simpl; [done|]. unfold num_char.
  intros H. apply orb_false_iff in H as [H H2].
  apply orb_false_iff in H as [_ H1]. by rewrite H1, H2.
Qed.

Lemma json_ws_isspace c : json_ws c = true -> isspace c = true.
Proof.
  unfold json_ws. intros H.
  repeat (apply orb_true_iff in H as [H|H]);
    apply N.eqb_eq in H; subst c; reflexivity.
Qed.

Lemma json_ws_forall_isspace w :
  forallb json_ws w = true -> forallb isspace w = true.
Proof.
  rewrite !forallb_forall. intros H x Hx. apply json_ws_isspace. by apply H.
Qed.

Lemma json_ws_not_num c : json_ws c = true -> num_char c = false.
Proof.
  unfold json_ws. intros H.
  repeat (apply orb_true_iff in H as [H|H]);
    apply N.eqb_eq in H; subst c; reflexivity.
Qed.

Lemma skip_ws_split s :
  exists w, s = w ++ skip_ws s /\ forallb json_ws w = true.
Proof. apply PyStrFacts.lstrip_split. Qed.

Lemma skip_ws_app w x r :
  forallb json_ws w = true -> json_ws x = false ->
  skip_ws (w ++ x :: r) = x :: r.
Proof. apply PyStrFacts.lstrip_app_stop. Qed.

Lemma skip_ws_head s x r : skip_ws s = x :: r -> json_ws x = false.
Proof. apply PyStrFacts.lstrip_head. Qed.

Lemma skip_ws_stop x r : json_ws x = false -> skip_ws (x :: r) = x :: r.
Proof. intros H. unfold skip_ws. simpl. by rewrite H. Qed.

(** After blanks, what follows cannot continue a number. *)
Lemma ws_then_safe w x r :
  forallb json_ws w = true -> num_char x = false -> num_safe (w ++ x :: r).
Proof.
  destruct w as [|c w]; simpl; [done|].
  intros H _. apply andb_true_iff in H as [H _]. by apply json_ws_not_num.
Qed.

(** *** Numbers *)

Lemma span_digits_eq s :
  s = fst (span_digits s) ++ snd (span_digits s) /\
  forallb is_digit (fst (span_digits s)) = true.
Proof.
  induction s as [|c s [IH1 IH2]]; simpl; [done|].
  destruct (is_digit c) eqn:Hc; simpl; [|done].
  rewrite Hc, IH2. split; [by f_equal|done].
Qed.

Lemma span_digits_app d x :
  forallb is_digit d = true -> head_not is_digit x ->
  span_digits (d ++ x) = (d, x).
Proof.
  intros Hd Hx. induction d as [|c d IH]; simpl.
  - destruct x as [|y x]; simpl in *; [done|]. by rewrite Hx.
  - simpl in Hd. apply andb_true_iff in Hd as [Hc Hd].
    rewrite Hc, (IH Hd). done.
Qed.

Lemma int_part_local m ds r1 :
  int_part m = Some (ds, r1) ->
  m = ds ++ r1 /\ ds <> [] /\
  forall x, head_not is_digit x -> int_part (ds ++ x) = Some (ds, x).
Proof.
  destruct m as [|c m]; simpl; [done|].
  destruct (in_range 49 57 c) eqn:Hc.
  - intros [= <- <-]. destruct (span_digits_eq m) as [Hm Hd].
    split; [simpl; by f_equal|]. split; [done|].
    intros x Hx. simpl. rewrite Hc.
    by rewrite (span_digits_app _ _ Hd Hx).
  - destruct (c =? 48) eqn:H0; [|done]. intros [= <- <-].
    split; [done|]. split; [done|]. intros x _. simpl. by rewrite Hc, H0.
Qed.

Lemma frac_part_local r1 :
  r1 = fst (frac_part r1) ++ snd (frac_part r1) /\
  (fst (frac_part r1) = [] \/ exists t, fst (frac_part r1) = 46 :: t) /\
  forall x,
    head_not is_digit x ->
    (fst (frac_part r1) = [] -> head_not (fun c => c =? 46) x) ->
    frac_part (fst (frac_part r1) ++ x) = (fst (frac_part r1), x).
Proof.
  destruct r1 as [|dot [|c r]]; simpl.
  - split; [done|]. split; [by left|]. intros [|y x] _ H; simpl; [done|].
    destruct x; simpl in *; [done|]. by rewrite (H eq_refl).
  - split; [done|]. split; [by left|]. intros [|y x] _ H; simpl; [done|].
    destruct x; simpl in *; [done|]. by rewrite (H eq_refl).
  - destruct ((dot =? 46) && is_digit c) eqn:Hd; simpl.
    + apply andb_true_iff in Hd as [Hdot Hc]. apply N.eqb_eq in Hdot. subst dot.
      destruct (span_digits_eq r) as [Hr Hds].
      split; [by do 2 f_equal|]. split; [right; by eexists|].
      intros x Hx _. rewrite Hc. simpl.
      by rewrite (span_digits_app _ _ Hds Hx).
    + split; [done|]. split; [by left|]. intros [|y x] _ H; simpl; [done|].
      destruct x; simpl in *; [done|]. by rewrite (H eq_refl).
Qed.

Lemma exp_part_local r2 :
  r2 = fst (exp_part r2) ++ snd (exp_part r2) /\
  (fst (exp_part r2) = [] \/
   exists e t, fst (exp_part r2) = e :: t /\ is_e e = true) /\
  forall x,
    head_not is_digit x ->
    (fst (exp_part r2) = [] -> head_not is_e x) ->
    exp_part (fst (exp_part r2) ++ x) = (fst (exp_part r2), x).
Proof.
  assert (forall x, head_not is_e x -> exp_part x = ([], x)) as Hnone.
  { intros [|y x] H; simpl; [done|]. unfold is_e in H. simpl in H.
    by rewrite H. }
  destruct r2 as [|e s1]; simpl.
  { split; [done|]. split; [by left|]. intros x _ H. apply Hnone. by apply H. }
  destruct ((e =? 101) || (e =? 69)) eqn:He.
  2:{ simpl. split; [done|]. split; [by left|]. intros x _ H.
      apply Hnone. by apply H. }
  set (sg := match s1 with
             | [] => ([], s1)
             | x :: s2 => if (x =? 43) || (x =? 45) then ([x], s2) else ([], s1)
             end).
  assert (s1 = fst sg ++ snd sg) as Hsg.
  { subst sg. destruct s1 as [|x s2]; [done|].
    by destruct ((x =? 43) || (x =? 45)). }
  assert (forall y d, d <> [] -> forallb is_digit d = true ->
                    match fst sg ++ d ++ y with
                    | [] => ([], fst sg ++ d ++ y)
                    | x :: s2 =>
                        if (x =? 43) || (x =? 45) then ([x], s2)
                        else ([], fst sg ++ d ++ y)
                    end = (fst sg, d ++ y)) as Hsg'.
  { intros y d Hd Hdig. subst sg. destruct s1 as [|x s2]; simpl.
    - destruct d as [|c d]; [done|]. simpl in *.
      apply andb_true_iff in Hdig as [Hc _].
      assert ((c =? 43) || (c =? 45) = false) as ->; [|done].
      unfold is_digit, in_range in Hc. apply andb_true_iff in Hc as [Hc1 Hc2].
      apply N.leb_le in Hc1. apply orb_false_iff. split; apply N.eqb_neq; lia.
    - destruct ((x =? 43) || (x =? 45)) eqn:Hx; simpl; [by rewrite Hx|].
      destruct d as [|c d]; [done|]. simpl in *.
      apply andb_true_iff in Hdig as [Hc _].
      assert ((c =? 43) || (c =? 45) = false) as ->; [|done].
      unfold is_digit, in_range in Hc. apply andb_true_iff in Hc as [Hc1 Hc2].
      apply N.leb_le in Hc1. apply orb_false_iff. split; apply N.eqb_neq; lia. }
  destruct (span_digits_eq (snd sg)) as [Hsp Hdig].
  destruct (span_digits (snd sg)) as [d r] eqn:Hspan. simpl in Hsp, Hdig.
  destruct d as [|c d]; simpl.
  - split; [done|]. split; [by left|]. intros x _ H. apply Hnone. by apply H.
  - split.
    { f_equal. rewrite Hsg at 1. rewrite Hsp. rewrite <- app_assoc. done. }
    split; [right; exists e, (fst sg ++ c :: d); by unfold is_e|].
    intros x Hx _.
    change ((e :: fst sg ++ c :: d) ++ x) with (e :: (fst sg ++ c :: d) ++ x).
    cbn [exp_part]. rewrite He. rewrite <- app_assoc.
    rewrite (Hsg' x (c :: d)) by done.
    cbn [snd fst]. rewrite (span_digits_app (c :: d) x Hdig Hx). done.
Qed.


Lemma is_e_not_digit e : is_e e = true -> is_digit e = false /\ (e =? 46) = false.
Proof.
  unfold is_e. intros H. apply orb_true_iff in H as [H|H];
    apply N.eqb_eq in H; subst e; done.
Qed.

Lemma number_body_local neg m v r :
  number_body neg m = Some (POk (v, r)) ->
  exists c, m = c ++ r /\ c <> [] /\
            (exists d t, c = d :: t /\ is_digit d = true) /\
            (forall l, v <> JArr l) /\
            forall r', num_safe r' ->
                       number_body neg (c ++ r') = Some (POk (v, r')).
Proof.
  unfold number_body.
  destruct (int_part m) as [[ds r1]|] eqn:Hint; [|done].
  assert (exists d t, ds = d :: t /\ is_digit d = true) as Hhead.
  { destruct m as [|d m']; simpl in Hint; [done|].
    destruct (in_range 49 57 d) eqn:Hd.
    - injection Hint as <- <-. eexists _, _. split; [done|].
      unfold is_digit, in_range in *. apply andb_true_iff in Hd as [H1 H2].
      apply N.leb_le in H1. rewrite H2, andb_true_r. apply N.leb_le. lia.
    - destruct (d =? 48) eqn:H0; [|done]. injection Hint as <- <-.
      apply N.eqb_eq in H0. subst d. by eexists _, _. }
  destruct (int_part_local _ _ _ Hint) as (Hm & Hds & Hil).
  destruct (frac_part_local r1) as (Hf1 & Hf2 & Hf3).
  destruct (exp_part_local (snd (frac_part r1))) as (He1 & He2 & He3).
  set (fr := fst (frac_part r1)) in *.
  set (r2 := snd (frac_part r1)) in *.
  set (ex := fst (exp_part r2)) in *.
  set (r3 := snd (exp_part r2)) in *.
  destruct fr as [|f0 fr'] eqn:Hfr; [destruct ex as [|e0 ex'] eqn:Hex|].
  - (* an integer *)
    destruct (Nat.ltb int_max_str_digits (length ds)) eqn:Hlen; [done|].
    intros [= <- <-]. exists ds. split; [done|]. split; [done|].
    split.
    { destruct Hhead as (d & t & -> & Hd). by eexists _, _. }
    split; [done|].
    intros r' Hr'.
    rewrite (Hil r' (num_safe_digit _ Hr')).
    assert (frac_part r' = ([], r')) as Hf.
    { apply (Hf3 r'); [by apply num_safe_digit|]. intros _. by apply num_safe_dot. }
    rewrite Hf. cbn [fst snd].
    assert (exp_part r' = ([], r')) as He.
    { apply (He3 r'); [by apply num_safe_digit|]. intros _. by apply num_safe_exp. }
    rewrite He. cbn [fst snd]. by rewrite Hlen.
  - (* an exponent without a fraction *)
    intros [= <- <-]. exists (ds ++ e0 :: ex').
    destruct He2 as [He2|(e & t & [= <- <-] & He2)]; [done|].
    destruct (is_e_not_digit _ He2) as [He2d He2p].
    split.
    { rewrite Hm, Hf1, He1. simpl. by rewrite <- app_assoc. }
    split; [by destruct ds|].
    split.
    { destruct Hhead as (d & t' & -> & Hd). by eexists _, _. }
    split; [done|].
    intros r' Hr'. rewrite <- app_assoc.
    rewrite (Hil ((e0 :: ex') ++ r')) by (simpl; done).
    assert (frac_part ((e0 :: ex') ++ r') = ([], (e0 :: ex') ++ r')) as Hf.
    { apply (Hf3 ((e0 :: ex') ++ r')); simpl; done. }
    rewrite Hf. cbn [fst snd].
    assert (exp_part ((e0 :: ex') ++ r') = (e0 :: ex', r')) as He.
    { apply (He3 r'); [by apply num_safe_digit|done]. }
    rewrite He. cbn [fst snd]. done.
  - (* a fraction, with or without an exponent *)
    destruct Hf2 as [Hf2|(t & [= -> <-])]; [done|].
    intros [= <- <-]. exists (ds ++ (46 :: fr') ++ ex).
    split.
    { rewrite Hm, Hf1, He1. by rewrite <- !app_assoc. }
    split; [by destruct ds|].
    split.
    { destruct Hhead as (d & t' & -> & Hd). by eexists _, _. }
    split; [done|].
    intros r' Hr'. rewrite <- !app_assoc.
    rewrite (Hil ((46 :: fr') ++ ex ++ r')) by (simpl; done).
    assert (head_not is_digit (ex ++ r')) as Hexd.
    { destruct He2 as [->|(e & t & -> & He2)].
      - simpl. by apply num_safe_digit.
      - simpl. by destruct (is_e_not_digit _ He2). }
    assert (frac_part ((46 :: fr') ++ ex ++ r') = (46 :: fr', ex ++ r')) as Hf.
    { apply (Hf3 (ex ++ r') Hexd). done. }
    rewrite Hf. cbn [fst snd].
    assert (exp_part (ex ++ r') = (ex, r')) as He.
    { apply (He3 r'); [by apply num_safe_digit|]. intros _.
      by apply num_safe_exp. }
    rewrite He. cbn [fst snd]. done.
Qed.

Lemma match_number_local s v r :
  match_number s = Some (POk (v, r)) ->
  exists c, s = c ++ r /\
            (exists d t, c = d :: t /\ (is_digit d = true \/ d = 45)) /\
            (forall l, v <> JArr l) /\
            forall r', num_safe r' ->
                       match_number (c ++ r') = Some (POk (v, r')).
Proof.
  destruct s as [|c0 s']; simpl; [done|].
  destruct (c0 =? 45) eqn:Hc0; intros H;
    destruct (number_body_local _ _ _ _ H) as (c & Hs & Hc & Hd & Hv & Hloc).
  - exists (c0 :: c). split; [simpl; by f_equal|].
    split. { apply N.eqb_eq in Hc0. eexists _, _. split; [done|]. by right. }
    split; [done|]. intros r' Hr'. simpl. rewrite Hc0. by apply Hloc.
  - exists c. split; [done|].
    destruct Hd as (d & t & -> & Hd).
    split. { eexists _, _. split; [done|]. by left. }
    split; [done|].
    intros r' Hr'. simpl.
    simpl in Hs. injection Hs as <- Hs. rewrite Hc0. by apply Hloc.
Qed.

(** *** Strings *)

Lemma scanstring_quote x s1 acc :
  (x =? 34) = true -> scanstring (x :: s1) acc = Some (rev acc, s1).
Proof. intros Hq. simpl. by rewrite Hq. Qed.

Lemma scanstring_plain x s1 acc :
  (x =? 34) = false -> (x =? 92) = false -> (x <=? 31) = false ->
  scanstring (x :: s1) acc = scanstring s1 (x :: acc).
Proof. intros Hq Hb Hc. simpl. by rewrite Hq, Hb, Hc. Qed.

Lemma scanstring_escape x e s2 acc y :
  (x =? 34) = false -> (x =? 92) = true -> (e =? 117) = false ->
  unescape e = Some y ->
  scanstring (x :: e :: s2) acc = scanstring s2 (y :: acc).
Proof. intros Hq Hb Hu Hy. simpl. by rewrite Hq, Hb, Hu, Hy. Qed.

Lemma scanstring_escape_u x e h1 h2 h3 h4 s3 acc u :
  (x =? 34) = false -> (x =? 92) = true -> (e =? 117) = true ->
  hex4 h1 h2 h3 h4 = Some u ->
  scanstring (x :: e :: h1 :: h2 :: h3 :: h4 :: s3) acc
  = match s3 with
    | [] => None
    | b :: t1 =>
        if is_high_surrogate u && (b =? 92) then
          match t1 with
          | [] => scanstring s3 (u :: acc)
          | v :: t2 =>
              if v =? 117 then
                match t2 with
                | k1 :: k2 :: k3 :: k4 :: s4 =>
                    match hex4 k1 k2 k3 k4 with
                    | None => None
                    | Some u2 =>
                        if is_low_surrogate u2
                        then scanstring s4 (join_surrogates u u2 :: acc)
                        else scanstring s3 (u :: acc)
                    end
                | _ => scanstring s3 (u :: acc)
                end
              else scanstring s3 (u :: acc)
          end
        else scanstring s3 (u :: acc)
    end.
Proof. intros Hq Hb Hu Hhex. simpl. by rewrite Hq, Hb, Hu, Hhex. Qed.

Lemma scanstring_local s :
  forall acc k r,
    scanstring s acc = Some (k, r) ->
    exists c, s = c ++ r /\ c <> [] /\
              forall r', scanstring (c ++ r') acc = Some (k, r').
Proof.
  remember (length s) as n eqn:Hn. revert s Hn.
  induction n as [n IH] using lt_wf_ind. intros s Hn acc k r H.
  assert (forall s' acc' k' r',
             (length s' < length s)%nat ->
             scanstring s' acc' = Some (k', r') ->
             exists c, s' = c ++ r' /\ c <> [] /\
                       forall r'', scanstring (c ++ r'') acc' = Some (k', r''))
    as IH'.
  { intros s' acc' k' r' Hlt. apply (IH (length s')); [lia|done]. }
  clear IH Hn n.
  destruct s as [|x s1]; [done|].
  destruct (x =? 34) eqn:Hq.
  { rewrite scanstring_quote in H by done. injection H as <- <-.
    exists [x]. split; [done|]. split; [done|].
    intros r'. by apply scanstring_quote. }
  destruct (x =? 92) eqn:Hb.
  2:{ destruct (x <=? 31) eqn:Hctl; [simpl in H; by rewrite Hq, Hb, Hctl in H|].
      rewrite scanstring_plain in H by done.
      apply IH' in H as (c & -> & Hc & Hloc); [|simpl; lia].
      exists (x :: c). split; [done|]. split; [done|].
      intros r'. cbn [app]. by rewrite scanstring_plain. }
  destruct s1 as [|e s2]; [simpl in H; by rewrite Hq, Hb in H|].
  destruct (e =? 117) eqn:Hu.
  2:{ destruct (unescape e) as [y|] eqn:Hy;
        [|simpl in H; by rewrite Hq, Hb, Hu, Hy in H].
      rewrite (scanstring_escape _ _ _ _ y) in H by done.
      apply IH' in H as (c & -> & Hc & Hloc); [|simpl; lia].
      exists (x :: e :: c). split; [done|]. split; [done|].
      intros r'. cbn [app]. by rewrite (scanstring_escape _ _ _ _ y). }
  destruct s2 as [|h1 [|h2 [|h3 [|h4 s3]]]];
    try (simpl in H; by rewrite Hq, Hb, Hu in H).
  destruct (hex4 h1 h2 h3 h4) as [u|] eqn:Hhex;
    [|simpl in H; by rewrite Hq, Hb, Hu, Hhex in H].
  rewrite (scanstring_escape_u _ _ _ _ _ _ _ _ u) in H by done.
  (* the text after the escape decides between a pair and a lone escape *)
  assert (forall c3,
             c3 <> [] ->
             (forall r', scanstring (c3 ++ r') (u :: acc) = Some (k, r')) ->
             s3 = c3 ++ r ->
             (is_high_surrogate u = false \/
              (exists b t, c3 = b :: t /\ (b =? 92) = false) \/
              (exists v t, c3 = 92 :: v :: t /\ (v =? 117) = false) \/
              (exists k1 k2 k3 k4 t u2,
                  c3 = 92 :: 117 :: k1 :: k2 :: k3 :: k4 :: t /\
                  hex4 k1 k2 k3 k4 = Some u2 /\ is_low_surrogate u2 = false)) ->
             exists c, x :: e :: h1 :: h2 :: h3 :: h4 :: s3 = c ++ r /\ c <> [] /\
                       forall r', scanstring (c ++ r') acc = Some (k, r'))
    as Hlone.
  { clear H IH'. intros c3 Hc3 Hloc -> Hcase.
    exists (x :: e :: h1 :: h2 :: h3 :: h4 :: c3). split; [done|]. split; [done|].
    intros r'. cbn [app].
    rewrite (scanstring_escape_u _ _ _ _ _ _ _ _ u) by done.
    destruct Hcase as [Hhi|[(b & t & -> & Hb92)|[(v & t & -> & Hv)|
                        (k1 & k2 & k3 & k4 & t & u2 & -> & Hh2 & Hlow)]]].
    - destruct c3 as [|b t]; [done|]. cbn [app]. cbv beta iota.
      rewrite Hhi. cbn [andb]. apply (Hloc r').
    - cbn [app]. cbv beta iota. rewrite Hb92, andb_false_r. apply (Hloc r').
    - cbn [app]. cbv beta iota. rewrite Hv.
      destruct (is_high_surrogate u && (92 =? 92)); apply (Hloc r').
    - cbn [app]. cbv beta iota. rewrite Hh2, Hlow.
      destruct (is_high_surrogate u && (92 =? 92)); apply (Hloc r'). }
  destruct s3 as [|b t1]; [done|]. cbv beta iota in H.
  destruct (is_high_surrogate u && (b =? 92)) eqn:Htest.
  2:{ apply IH' in H as (c3 & Hs3 & Hc3 & Hloc); [|simpl; lia].
      apply (Hlone c3 Hc3 Hloc Hs3).
      apply andb_false_iff in Htest as [Hhi|Hb92]; [by left|].
      right. left. destruct c3 as [|b' t]; [done|].
      injection Hs3 as <- _. by eexists _, _. }
  apply andb_true_iff in Htest as [Hhi Hb92]. apply N.eqb_eq in Hb92. subst b.
  destruct t1 as [|v t2]; [done|]. cbv beta iota in H.
  destruct (v =? 117) eqn:Hv.
  2:{ apply IH' in H as (c3 & Hs3 & Hc3 & Hloc); [|simpl; lia].
      apply (Hlone c3 Hc3 Hloc Hs3).
      right. right. left.
      destruct c3 as [|b' [|v' t]]; [done| |].
      - specialize (Hloc []). injection Hs3 as <- _. done.
      - injection Hs3 as <- <- _. by eexists _, _. }
  apply N.eqb_eq in Hv. subst v.
  destruct t2 as [|k1 [|k2 [|k3 [|k4 s4]]]]; try done. cbv beta iota in H.
  destruct (hex4 k1 k2 k3 k4) as [u2|] eqn:Hhex2; [|done].
  destruct (is_low_surrogate u2) eqn:Hlow.
  - apply IH' in H as (c4 & -> & Hc4 & Hloc); [|simpl; lia].
    exists (x :: e :: h1 :: h2 :: h3 :: h4 :: 92 :: 117 :: k1 :: k2 :: k3 :: k4 :: c4).
    split; [done|]. split; [done|].
    intros r'. cbn [app].
    rewrite (scanstring_escape_u _ _ _ _ _ _ _ _ u) by done.
    cbv beta iota. rewrite Hhi, Hhex2, Hlow. simpl. apply Hloc.
  - apply IH' in H as (c3 & Hs3 & Hc3 & Hloc); [|simpl; lia].
    apply (Hlone c3 Hc3 Hloc Hs3).
    right. right. right.
    destruct c3 as [|b' [|v' [|j1 [|j2 [|j3 [|j4 t]]]]]]; try done;
      try (specialize (Hloc []); injection Hs3; intros; subst; done).
    injection Hs3 as <- <- <- <- <- <- _. by eexists _, _, _, _, _, _.
Qed.


(** *** Values *)

Lemma scan_once_S f depth c0 s' :
  scan_once (S f) depth (c0 :: s')
  = if c0 =? 34 then
      match scanstring s' [] with
      | Some (k, r) => POk (JStr k, r)
      | None => PErr Malformed
      end
    else if c0 =? 123 then
      match depth with
      | O => PErr TooDeep
      | S depth' =>
          match skip_ws s' with
          | [] => PErr Malformed
          | d :: r =>
              if d =? 125 then POk (JObj [], r)
              else parse_members f depth' (d :: r) []
          end
      end
    else if c0 =? 91 then
      match depth with
      | O => PErr TooDeep
      | S depth' =>
          match skip_ws s' with
          | [] => PErr Malformed
          | d :: r =>
              if d =? 93 then POk (JArr [], r)
              else parse_items f depth' (d :: r) []
          end
      end
    else if startswith (c0 :: s') (str "null") then POk (JNull, drop 4 (c0 :: s'))
    else if startswith (c0 :: s') (str "true")
         then POk (JBool true, drop 4 (c0 :: s'))
    else if startswith (c0 :: s') (str "false")
         then POk (JBool false, drop 5 (c0 :: s'))
    else
      match match_number (c0 :: s') with
      | Some res => res
      | None =>
          match match_constant (c0 :: s') with
          | Some res => POk res
          | None => PErr Malformed
          end
      end.
Proof. reflexivity. Qed.

Lemma parse_items_S f depth s acc :
  parse_items (S f) depth s acc
  = match scan_once f depth s with
    | PErr e => PErr e
    | POk (v, r) =>
        match skip_ws r with
        | [] => PErr Malformed
        | d :: r' =>
            if d =? 93 then POk (JArr (rev (v :: acc)), r')
            else if d =? 44 then parse_items f depth (skip_ws r') (v :: acc)
            else PErr Malformed
        end
    end.
Proof. reflexivity. Qed.

Lemma parse_members_S f depth q s1 acc :
  parse_members (S f) depth (q :: s1) acc
  = if q =? 34 then
      match scanstring s1 [] with
      | None => PErr Malformed
      | Some (k, r1) =>
          match skip_ws r1 with
          | [] => PErr Malformed
          | col :: r2 =>
              if col =? 58 then
                match scan_once f depth (skip_ws r2) with
                | PErr e => PErr e
                | POk (v, r3) =>
                    match skip_ws r3 with
                    | [] => PErr Malformed
                    | d :: r4 =>
                        if d =? 125
                        then POk (JObj (dict_of_pairs (rev ((k, v) :: acc))), r4)
                        else if d =? 44
                        then parse_members f depth (skip_ws r4) ((k, v) :: acc)
                        else PErr Malformed
                    end
                end
              else PErr Malformed
          end
      end
    else PErr Malformed.
Proof. reflexivity. Qed.

(** A literal word at the start of the text. *)
Lemma startswith_split s w :
  startswith s w = true -> s = w ++ drop (length w) s.
Proof.
  intros H. apply PyStrFacts.startswith_inv in H as [x ->].
  by rewrite drop_app_length.
Qed.

Lemma fuel_S (c : text) (f' : nat) :
  c <> [] -> (2 * length c <= f')%nat ->
  exists f'', f' = S f'' /\ (2 * length c <= S f'')%nat.
Proof.
  intros Hc Hf. destruct c as [|x c]; [done|]. simpl in Hf.
  destruct f' as [|f'']; [lia|]. eauto.
Qed.


Lemma number_head_not_word d :
  is_digit d = true \/ d = 45 -> d <> 110 /\ d <> 116 /\ d <> 102.
Proof.
  unfold is_digit, in_range. intros [H| ->]; [|done].
  apply andb_true_iff in H as [_ H]. apply N.leb_le in H. lia.
Qed.

Lemma scan_local_step f :
  items_local f -> members_local f -> scan_local (S f).
Proof.
  intros Hitems Hmembers depth s v r H.
  destruct s as [|c0 s']; [done|].
  rewrite scan_once_S in H.
  destruct (c0 =? 34) eqn:Hq.
  { (* a string *)
    destruct (scanstring s' []) as [[k r0]|] eqn:Hs; [|done].
    injection H as <- <-.
    destruct (scanstring_local _ _ _ _ Hs) as (c1 & -> & Hc1 & Hloc).
    exists (c0 :: c1). split; [done|]. split; [done|]. split; [done|].
    intros f' r' Hf _. destruct f' as [|f'']; [simpl in Hf; lia|].
    cbn [app]. by rewrite scan_once_S, Hq, Hloc. }
  destruct (c0 =? 123) eqn:Hobj.
  { (* an object *)
    destruct depth as [|depth']; [done|].
    destruct (skip_ws_split s') as (w & Hw & Hws).
    destruct (skip_ws s') as [|d r0] eqn:Hsk; [done|].
    pose proof (skip_ws_head _ _ _ Hsk) as Hd.
    destruct (d =? 125) eqn:Hclose.
    - injection H as <- <-. exists (c0 :: w ++ [d]).
      split. { rewrite Hw. simpl. by rewrite <- app_assoc. }
      split; [done|]. split; [done|].
      intros f' r' Hf _. destruct f' as [|f'']; [simpl in Hf; lia|].
      cbn [app]. rewrite scan_once_S, Hq, Hobj. rewrite <- app_assoc. cbn [app].
      rewrite (skip_ws_app w d r' Hws Hd). by rewrite Hclose.
    - destruct (Hmembers _ _ _ _ _ H) as (c1 & Hc1 & Hne & Hv & Hloc).
      destruct c1 as [|d' c1']; [done|]. injection Hc1 as <- ->.
      exists (c0 :: w ++ d :: c1').
      split. { rewrite Hw. simpl. by rewrite <- app_assoc. }
      split; [done|]. split. { intros l ->. by destruct (Hv l). }
      intros f' r' Hf _. destruct f' as [|f'']; [simpl in Hf; lia|].
      cbn [app]. rewrite scan_once_S, Hq, Hobj. rewrite <- app_assoc. cbn [app].
      rewrite (skip_ws_app w d _ Hws Hd). rewrite Hclose.
      apply (Hloc f'' r'). simpl in Hf |- *. rewrite length_app in Hf.
      simpl in Hf. lia. }
  destruct (c0 =? 91) eqn:Harr.
  { (* an array *)
    apply N.eqb_eq in Harr as Hc0.
    destruct depth as [|depth']; [done|].
    destruct (skip_ws_split s') as (w & Hw & Hws).
    destruct (skip_ws s') as [|d r0] eqn:Hsk; [done|].
    pose proof (skip_ws_head _ _ _ Hsk) as Hd.
    destruct (d =? 93) eqn:Hclose.
    - injection H as <- <-. exists (c0 :: w ++ [d]).
      split. { rewrite Hw. simpl. by rewrite <- app_assoc. }
      split; [done|].
      split. { intros l _. apply N.eqb_eq in Hclose. subst. by exists w. }
      intros f' r' Hf _. destruct f' as [|f'']; [simpl in Hf; lia|].
      cbn [app]. rewrite scan_once_S, Hq, Hobj, Harr. rewrite <- app_assoc.
      cbn [app]. rewrite (skip_ws_app w d r' Hws Hd). by rewrite Hclose.
    - destruct (Hitems _ _ _ _ _ H) as (c1 & Hc1 & (c2 & Hc2) & Hloc).
      destruct c1 as [|d' c1']; [by destruct c2|]. injection Hc1 as <- ->.
      exists (c0 :: w ++ d :: c1').
      split. { rewrite Hw. simpl. by rewrite <- app_assoc. }
      split; [done|].
      split. { intros l _. exists (w ++ c2). subst c0. rewrite Hc2.
               by rewrite <- app_assoc. }
      intros f' r' Hf _. destruct f' as [|f'']; [simpl in Hf; lia|].
      cbn [app]. rewrite scan_once_S, Hq, Hobj, Harr. rewrite <- app_assoc.
      cbn [app]. rewrite (skip_ws_app w d _ Hws Hd). rewrite Hclose.
      apply (Hloc f'' r'). simpl in Hf |- *. rewrite length_app in Hf.
      simpl in Hf. lia. }
  destruct (startswith (c0 :: s') (str "null")) eqn:Hnull.
  { injection H as <- <-. apply startswith_split in Hnull.
    exists (str "null"). split; [done|]. split; [done|]. split; [done|].
    intros f' r' Hf _. destruct f' as [|f'']; [simpl in Hf; lia|]. reflexivity. }
  destruct (startswith (c0 :: s') (str "true")) eqn:Htrue.
  { injection H as <- <-. apply startswith_split in Htrue.
    exists (str "true"). split; [done|]. split; [done|]. split; [done|].
    intros f' r' Hf _. destruct f' as [|f'']; [simpl in Hf; lia|]. reflexivity. }
  destruct (startswith (c0 :: s') (str "false")) eqn:Hfalse.
  { injection H as <- <-. apply startswith_split in Hfalse.
    exists (str "false"). split; [done|]. split; [done|]. split; [done|].
    intros f' r' Hf _. destruct f' as [|f'']; [simpl in Hf; lia|]. reflexivity. }
  destruct (match_number (c0 :: s')) as [res|] eqn:Hnum.
  { (* a number *)
    subst res.
    destruct (match_number_local _ _ _ Hnum)
      as (c & Hc & (d & t & -> & Hd) & Hv & Hloc).
    injection Hc as <- ->.
    exists (c0 :: t). split; [done|]. split; [done|].
    split. { intros l ->. by destruct (Hv l). }
    intros f' r' Hf Hr'. destruct f' as [|f'']; [simpl in Hf; lia|].
    destruct (number_head_not_word _ Hd) as (Hn & Ht & Hfa).
    cbn [app]. rewrite scan_once_S, Hq, Hobj, Harr.
    assert (startswith (c0 :: t ++ r') (str "null") = false) as ->
      by (by apply (PyStrFacts.startswith_head_ne c0 (t ++ r') 110)).
    assert (startswith (c0 :: t ++ r') (str "true") = false) as ->
      by (by apply (PyStrFacts.startswith_head_ne c0 (t ++ r') 116)).
    assert (startswith (c0 :: t ++ r') (str "false") = false) as ->
      by (by apply (PyStrFacts.startswith_head_ne c0 (t ++ r') 102)).
    change (c0 :: t ++ r') with ((c0 :: t) ++ r').
    by rewrite (Hloc r' Hr'). }
  (* a word constant *)
  unfold match_constant in H.
  destruct (startswith (c0 :: s') (str "NaN")) eqn:Hnan.
  { injection H as <- <-. apply startswith_split in Hnan.
    exists (str "NaN"). split; [done|]. split; [done|]. split; [done|].
    intros f' r' Hf _. destruct f' as [|f'']; [simpl in Hf; lia|]. reflexivity. }
  destruct (startswith (c0 :: s') (str "Infinity")) eqn:Hinf.
  { injection H as <- <-. apply startswith_split in Hinf.
    exists (str "Infinity"). split; [done|]. split; [done|]. split; [done|].
    intros f' r' Hf _. destruct f' as [|f'']; [simpl in Hf; lia|]. reflexivity. }
  destruct (startswith (c0 :: s') (str "-Infinity")) eqn:Hninf; [|done].
  injection H as <- <-. apply startswith_split in Hninf.
  exists (str "-Infinity"). split; [done|]. split; [done|]. split; [done|].
  intros f' r' Hf _. destruct f' as [|f'']; [simpl in Hf; lia|]. reflexivity.
Qed.


Lemma closer_not_num d :
  (d =? 93) = true \/ (d =? 44) = true \/ (d =? 125) = true ->
  num_char d = false.
Proof.
  intros [H|[H|H]]; apply N.eqb_eq in H; by subst d.
Qed.

Lemma items_local_step f :
  scan_local f -> items_local f -> items_local (S f).
Proof.
  intros Hscan Hitems depth s acc v r H.
  rewrite parse_items_S in H.
  destruct (scan_once f depth s) as [[v1 r1]|e] eqn:Hv1; [|done].
  destruct (Hscan _ _ _ _ Hv1) as (c1 & -> & Hc1 & _ & Hloc1).
  destruct (skip_ws_split r1) as (w & Hw & Hws).
  destruct (skip_ws r1) as [|d r2] eqn:Hsk; [done|].
  pose proof (skip_ws_head _ _ _ Hsk) as Hd.
  destruct (d =? 93) eqn:Hclose.
  - injection H as <- <-. apply N.eqb_eq in Hclose as Hd93.
    exists (c1 ++ w ++ [d]).
    split. { rewrite Hw. by norm_app. }
    split. { exists (c1 ++ w). subst d. by norm_app. }
    intros f' r' Hf. destruct f' as [|f''].
    { destruct c1; [done|]. simpl in Hf. lia. }
    rewrite parse_items_S. norm_app.
    rewrite (Hloc1 f'' (w ++ d :: r')).
    + rewrite (skip_ws_app w d r' Hws Hd). by rewrite Hclose.
    + app_length Hf. lia.
    + apply ws_then_safe; [done|]. apply closer_not_num. by left.
  - destruct (d =? 44) eqn:Hcomma; [|done].
    destruct (Hitems _ _ _ _ _ H) as (c2 & Hc2 & (c3 & Hc3) & Hloc2).
    destruct (skip_ws_split r2) as (w2 & Hw2 & Hws2).
    destruct c2 as [|y t]; [by destruct c3|].
    pose proof (skip_ws_head r2 y (t ++ r) Hc2) as Hyws.
    exists (c1 ++ w ++ d :: w2 ++ y :: t).
    split. { rewrite Hw. rewrite Hw2 at 1. rewrite Hc2. by norm_app. }
    split. { exists (c1 ++ w ++ d :: w2 ++ c3). rewrite Hc3. by norm_app. }
    intros f' r' Hf. destruct f' as [|f''].
    { destruct c1; [done|]. simpl in Hf. lia. }
    rewrite parse_items_S. norm_app.
    rewrite (Hloc1 f'' (w ++ d :: w2 ++ y :: t ++ r')).
    + rewrite (skip_ws_app w d _ Hws Hd). rewrite Hclose, Hcomma.
      rewrite (skip_ws_app w2 y _ Hws2 Hyws).
      apply (Hloc2 f'' r'). app_length Hf. simpl. lia.
    + app_length Hf. lia.
    + apply ws_then_safe; [done|]. apply closer_not_num. right. by left.
Qed.

Lemma members_local_step f :
  scan_local f -> members_local f -> members_local (S f).
Proof.
  intros Hscan Hmembers depth s acc v r H.
  destruct s as [|q s1]; [done|].
  rewrite parse_members_S in H.
  destruct (q =? 34) eqn:Hq; [|done].
  destruct (scanstring s1 []) as [[k r1]|] eqn:Hk; [|done].
  destruct (scanstring_local _ _ _ _ Hk) as (ck & -> & Hck & Hlock).
  destruct (skip_ws_split r1) as (w1 & Hw1 & Hws1).
  destruct (skip_ws r1) as [|col r2] eqn:Hsk1; [done|].
  pose proof (skip_ws_head _ _ _ Hsk1) as Hcolws.
  destruct (col =? 58) eqn:Hcol; [|done].
  destruct (skip_ws_split r2) as (w2 & Hw2 & Hws2).
  destruct (scan_once f depth (skip_ws r2)) as [[v1 r3]|e] eqn:Hv1; [|done].
  destruct (Hscan _ _ _ _ Hv1) as (cv & Hcv & Hcvne & _ & Hlocv).
  destruct cv as [|y t]; [done|].
  pose proof (skip_ws_head r2 y (t ++ r3) Hcv) as Hyws.
  destruct (skip_ws_split r3) as (w3 & Hw3 & Hws3).
  destruct (skip_ws r3) as [|d r4] eqn:Hsk3; [done|].
  pose proof (skip_ws_head _ _ _ Hsk3) as Hd.
  destruct (d =? 125) eqn:Hclose.
  - injection H as <- <-.
    exists (q :: ck ++ w1 ++ col :: w2 ++ (y :: t) ++ w3 ++ [d]).
    split.
    { rewrite Hw1. rewrite Hw2 at 1. rewrite Hcv. rewrite Hw3 at 1. by norm_app. }
    split; [done|]. split; [done|].
    intros f' r' Hf. destruct f' as [|f'']; [simpl in Hf; lia|].
    norm_app. rewrite parse_members_S, Hq.
    rewrite Hlock. rewrite (skip_ws_app w1 col _ Hws1 Hcolws).
    rewrite Hcol. rewrite (skip_ws_app w2 y _ Hws2 Hyws).
    assert (scan_once f'' depth ((y :: t) ++ w3 ++ d :: r')
            = POk (v1, w3 ++ d :: r')) as Hval.
    { apply Hlocv.
      - app_length Hf. simpl. lia.
      - apply ws_then_safe; [done|]. apply closer_not_num. right. by right. }
    cbn [app] in Hval. rewrite Hval.
    rewrite (skip_ws_app w3 d r' Hws3 Hd). by rewrite Hclose.
  - destruct (d =? 44) eqn:Hcomma; [|done].
    destruct (Hmembers _ _ _ _ _ H) as (c5 & Hc5 & Hc5ne & Hv & Hloc5).
    destruct (skip_ws_split r4) as (w4 & Hw4 & Hws4).
    destruct c5 as [|z t5]; [done|].
    pose proof (skip_ws_head r4 z (t5 ++ r) Hc5) as Hzws.
    exists (q :: ck ++ w1 ++ col :: w2 ++ (y :: t) ++ w3 ++ d :: w4 ++ z :: t5).
    split.
    { rewrite Hw1. rewrite Hw2 at 1. rewrite Hcv. rewrite Hw3 at 1.
      rewrite Hw4 at 1. rewrite Hc5. by norm_app. }
    split; [done|]. split; [done|].
    intros f' r' Hf. destruct f' as [|f'']; [simpl in Hf; lia|].
    norm_app. rewrite parse_members_S, Hq.
    rewrite Hlock. rewrite (skip_ws_app w1 col _ Hws1 Hcolws).
    rewrite Hcol. rewrite (skip_ws_app w2 y _ Hws2 Hyws).
    assert (scan_once f'' depth ((y :: t) ++ w3 ++ d :: w4 ++ z :: t5 ++ r')
            = POk (v1, w3 ++ d :: w4 ++ z :: t5 ++ r')) as Hval.
    { apply Hlocv.
      - app_length Hf. simpl. lia.
      - apply ws_then_safe; [done|]. apply closer_not_num. right. by left. }
    cbn [app] in Hval. rewrite Hval.
    rewrite (skip_ws_app w3 d _ Hws3 Hd). rewrite Hclose, Hcomma.
    rewrite (skip_ws_app w4 z _ Hws4 Hzws).
    apply (Hloc5 f'' r'). app_length Hf. simpl. lia.
Qed.

Theorem parser_local f : scan_local f /\ items_local f /\ members_local f.
Proof.
  induction f as [|f (Hs & Hi & Hm)].
  - split; [|split]; intros ? **; done.
  - split; [|split].
    + by apply scan_local_step.
    + by apply items_local_step.
    + by apply members_local_step.
Qed.


(** *** Array texts *)

(** A text that parses to an array is an array text between blanks, and
    the array text alone parses to the same array. *)
Lemma json_loads_array_core limit t l :
  json_loads limit t = Ok (JArr l) ->
  exists w1 mid w2,
    t = w1 ++ (91 :: mid ++ [93]) ++ w2 /\
    forallb json_ws w1 = true /\ forallb json_ws w2 = true /\
    json_loads limit (91 :: mid ++ [93]) = Ok (JArr l).
Proof.
  unfold json_loads. destruct (startswith t [65279]); [done|].
  destruct (scan_once (fuel_for t) limit (skip_ws t)) as [[v r]|[]] eqn:Hscan;
    try done.
  destruct (skip_ws r) as [|x r'] eqn:Hr; [|done]. intros [= ->].
  destruct (parser_local (fuel_for t)) as (Hlocal & _ & _).
  destruct (Hlocal _ _ _ _ Hscan) as (c & Hc & _ & Hshape & Hloc).
  destruct (Hshape l eq_refl) as [mid ->].
  destruct (skip_ws_split t) as (w1 & Hw1 & Hws1).
  exists w1, mid, r. split; [by rewrite Hw1 at 1; rewrite Hc|].
  split; [done|]. split; [by apply PyStrFacts.lstrip_nil_all|].
  change (startswith (91 :: mid ++ [93]) [65279]) with false. cbv iota.
  rewrite (skip_ws_stop 91 (mid ++ [93]) eq_refl).
  pose proof (Hloc (fuel_for (91 :: mid ++ [93])) []) as Hcore.
  rewrite app_nil_r in Hcore. rewrite Hcore; [done| |done].
  unfold fuel_for. lia.
Qed.

Lemma strip_array_text limit t l :
  json_loads limit t = Ok (JArr l) ->
  exists mid, strip t = 91 :: mid ++ [93] /\
              json_loads limit (strip t) = Ok (JArr l) /\
              (exists h tl, t = h :: tl /\ h <> 106) /\
              forall p1 p2, forallb isspace p1 = true ->
                            forallb isspace p2 = true ->
                            strip (p1 ++ t ++ p2) = 91 :: mid ++ [93].
Proof.
  intros H. destruct (json_loads_array_core limit t l H)
    as (w1 & mid & w2 & -> & Hw1 & Hw2 & Hcore).
  exists mid.
  assert (forall p1 p2, forallb isspace p1 = true ->
                        forallb isspace p2 = true ->
                        strip (p1 ++ (w1 ++ (91 :: mid ++ [93]) ++ w2) ++ p2)
                        = 91 :: mid ++ [93]) as Hpad.
  { intros p1 p2 Hp1 Hp2.
    replace (p1 ++ (w1 ++ (91 :: mid ++ [93]) ++ w2) ++ p2)
      with ((p1 ++ w1) ++ (91 :: mid ++ [93]) ++ (w2 ++ p2))
      by (by rewrite <- !app_assoc).
    apply PyStrFacts.strip_padded; try done.
    - rewrite forallb_app, Hp1. by rewrite json_ws_forall_isspace.
    - rewrite forallb_app, Hp2. by rewrite json_ws_forall_isspace. }
  assert (strip (w1 ++ (91 :: mid ++ [93]) ++ w2) = 91 :: mid ++ [93]) as Hs.
  { pose proof (Hpad [] [] eq_refl eq_refl) as Hp.
    by rewrite app_nil_l, app_nil_r in Hp. }
  split; [done|]. split; [by rewrite Hs|]. split; [|done].
  destruct w1 as [|h w1']; simpl.
  - by eexists _, _.
  - eexists _, _. split; [done|]. simpl in Hw1.
    apply andb_true_iff in Hw1 as [Hh _]. intros ->. done.
Qed.


(** *** The fuel suffices *)

Lemma skip_ws_length s : (length (skip_ws s) <= length s)%nat.
Proof.
  destruct (skip_ws_split s) as (w & Hw & _).
  rewrite Hw at 2. rewrite length_app. lia.
Qed.

Lemma match_number_fuel s res : match_number s = Some res -> res <> PErr NoFuel.
Proof.
  unfold match_number, number_body. intros H Hres. subst res.
  destruct s as [|c0 s']; [done|].
  destruct (c0 =? 45);
    destruct (int_part _) as [[ds r1]|]; try done;
    destruct (fst (frac_part r1)); destruct (fst (exp_part _)); try done;
    destruct (Nat.ltb _ _); done.
Qed.

(** With fuel above twice the length of the text the parser never stops
    for lack of fuel. *)
Lemma fuel_adequate f :
  (forall depth s, (2 * length s + 1 <= f)%nat ->
                   scan_once f depth s <> PErr NoFuel) /\
  (forall depth s acc, (2 * length s + 2 <= f)%nat ->
                       parse_items f depth s acc <> PErr NoFuel) /\
  (forall depth s acc, (2 * length s + 2 <= f)%nat ->
                       parse_members f depth s acc <> PErr NoFuel).
Proof.
  induction f as [|f (IHs & IHi & IHm)].
  { split; [|split]; intros; lia. }
  split; [|split].
  - intros depth s Hf. destruct s as [|c0 s']; [done|].
    rewrite scan_once_S. simpl in Hf.
    pose proof (skip_ws_length s') as Hsk.
    destruct (c0 =? 34).
    { by destruct (scanstring s' []) as [[k r]|]. }
    destruct (c0 =? 123).
    { destruct depth as [|depth']; [done|].
      destruct (skip_ws s') as [|d r] eqn:Hws; [done|].
      destruct (d =? 125); [done|]. apply IHm. simpl in *. lia. }
    destruct (c0 =? 91).
    { destruct depth as [|depth']; [done|].
      destruct (skip_ws s') as [|d r] eqn:Hws; [done|].
      destruct (d =? 93); [done|]. apply IHi. simpl in *. lia. }
    destruct (startswith _ _); [done|].
    destruct (startswith _ _); [done|].
    destruct (startswith _ _); [done|].
    destruct (match_number (c0 :: s')) as [res|] eqn:Hn.
    { by apply (match_number_fuel _ _ Hn). }
    by destruct (match_constant _).
  - intros depth s acc Hf. rewrite parse_items_S.
    destruct (scan_once f depth s) as [[v r1]|e] eqn:Hv.
    + destruct (parser_local f) as (Hloc & _ & _).
      destruct (Hloc _ _ _ _ Hv) as (c1 & -> & Hc1 & _).
      rewrite length_app in Hf.
      assert (1 <= length c1)%nat by (destruct c1; [done|simpl; lia]).
      pose proof (skip_ws_length r1) as Hsk.
      destruct (skip_ws r1) as [|d r2]; [done|].
      destruct (d =? 93); [done|]. destruct (d =? 44); [|done].
      apply IHi. pose proof (skip_ws_length r2). simpl in *. lia.
    + intros [= ->]. apply (IHs depth s); [lia|done].
  - intros depth s acc Hf. destruct s as [|q s1]; [done|].
    rewrite parse_members_S. simpl in Hf.
    destruct (q =? 34); [|done].
    destruct (scanstring s1 []) as [[k r1]|] eqn:Hk; [|done].
    destruct (scanstring_local _ _ _ _ Hk) as (ck & -> & _ & _).
    rewrite length_app in Hf.
    pose proof (skip_ws_length r1) as Hsk1.
    destruct (skip_ws r1) as [|col r2]; [done|].
    destruct (col =? 58); [|done].
    pose proof (skip_ws_length r2) as Hsk2.
    destruct (scan_once f depth (skip_ws r2)) as [[v r3]|e] eqn:Hv.
    + destruct (parser_local f) as (Hloc & _ & _).
      destruct (Hloc _ _ _ _ Hv) as (cv & Hcv & _ & _).
      assert (length r3 <= length (skip_ws r2))%nat
        by (rewrite Hcv, length_app; lia).
      pose proof (skip_ws_length r3) as Hsk3.
      destruct (skip_ws r3) as [|d r4]; [done|].
      destruct (d =? 125); [done|]. destruct (d =? 44); [|done].
      apply IHm. pose proof (skip_ws_length r4). simpl in *. lia.
    + intros [= ->]. apply (IHs depth (skip_ws r2)); [simpl in *; lia|done].
Qed.

(** [json_loads] never stops for lack of fuel: when it raises
    [RecursionError], the text is nested deeper than the limit. *)
Lemma json_loads_fuel limit s :
  scan_once (fuel_for s) limit (skip_ws s) <> PErr NoFuel.
Proof.
  destruct (fuel_adequate (fuel_for s)) as (Hs & _ & _).
  apply Hs. pose proof (skip_ws_length s). unfold fuel_for. lia.
Qed.

(** *** The nesting limit *)










(** *** Integers too long to convert *)



End JsonFacts.

(** ** The strict path, the extraction and the repair chain *)

Module ParsePathFacts.

Import Regex TrendAnalyzer PyStrFacts JsonSpec JsonFacts ParsePathSpec Fixtures.












(** *** The repair chain on texts it does not match *)

Lemma search_none r s :
  search r s = None ->
  match_at r s = None /\
  match s with
  | [] => True
  | _ :: s' => search r s' = None
  end.
Proof.
  destruct s as [|c s']; simpl; destruct (match_at r _) as [[g rest]|]; done.
Qed.

Lemma sub_no_match r repl s : search r s = None -> sub r repl s = s.
Proof.
  unfold sub. induction s as [|c s' IH]; intros H;
    destruct (search_none _ _ H) as [Hm Hs]; simpl; rewrite Hm; [done|].
  by rewrite (IH Hs).
Qed.

Lemma fold_rules_no_match (rs : list (regex * list ritem)) t :
  forallb (fun rule => match search (fst rule) t with
                       | None => true
                       | Some _ => false
                       end) rs = true ->
  fold_left apply_rule rs t = t.
Proof.
  induction rs as [|rule rs IH]; simpl; [done|].
  intros H. apply andb_true_iff in H as [Hr Hrs].
  destruct (search (fst rule) t) eqn:Hs; [done|].
  unfold apply_rule at 2. rewrite (sub_no_match _ _ _ Hs). by apply IH.
Qed.

(** C1, as amended.  For every text that parses strictly to an array and
    in whose stripped form no pattern of the chain has a match, the
    chain returns the stripped text, and parsing its result gives the
    array that parsing the text gives. *)
Theorem fix_json_keeps_rule_free limit t l :
  json_loads limit t = Ok (JArr l) ->
  rule_free (strip t) = true ->
  _fix_json t = strip t /\ json_loads limit (_fix_json t) = Ok (JArr l).
Proof.
  intros H Hfree.
  destruct (strip_array_text limit t l H) as (mid & Hs & Hload & _).
  assert (_fix_json t = strip t) as Hfix.
  { unfold _fix_json. rewrite Hs. simpl lstrip. rewrite <- Hs.
    by apply fold_rules_no_match. }
  by rewrite Hfix.
Qed.

(** C1, as stated, fails: the array of the one string [true] is valid,
    and the rule for a word constant followed by a quote rewrites the end
    of the string, so that the repaired text parses to another string. *)
Lemma fix_json_changes_valid_array :
  json_loads room quoted_true = Ok (JArr [JStr (str "true")]) /\
  _fix_json quoted_true = js "['true,']" /\
  json_loads room (_fix_json quoted_true) = Ok (JArr [JStr (str "true,")]).
Proof. split; [|split]; vm_compute; reflexivity. Qed.

Lemma fix_json_keeps_rule_free_witness :
  _fix_json (js " [{'rank':1,'title':'A'},{'rank':2,'title':'B'}] ")
  = js "[{'rank':1,'title':'A'},{'rank':2,'title':'B'}]" /\
  json_loads room
             (_fix_json (js " [{'rank':1,'title':'A'},{'rank':2,'title':'B'}] "))
  = Ok two_records.
Proof.
  apply (fix_json_keeps_rule_free room
           (js " [{'rank':1,'title':'A'},{'rank':2,'title':'B'}] ")).
  - vm_compute. reflexivity.
  - vm_compute. reflexivity.
Defined.



(** *** No pattern of the program matches the empty text *)

Lemma star_rests_length p s rest :
  In rest (star_rests p s) -> (length rest <= length s)%nat.
Proof.
  revert rest. induction s as [|x s IH]; intros rest; simpl.
  - intros [<-|[]]. done.
  - destruct (p x).
    + rewrite in_app_iff. intros [H|[<-|[]]]; [|done].
      specialize (IH _ H). lia.
    + intros [<-|[]]. done.
Qed.

Lemma matches_min_len r :
  forall g s g' rest,
    In (g', rest) (matches r g s) -> (length rest + min_len r <= length s)%nat.
Proof.
  induction r as [c|w|p|p|p|r1 IH1 r2 IH2|r1 IH1 r2 IH2|r1 IH1|p];
    intros g s g' rest; simpl.
  - destruct s as [|x s]; [done|]. destruct (x =? c); [|done].
    intros [[= <- <-]|[]]. simpl. lia.
  - destruct (startswith s w) eqn:Hw; [|done].
    intros [[= <- <-]|[]]. apply startswith_inv in Hw as [x ->].
    rewrite drop_app_length, length_app. lia.
  - destruct s as [|x s]; [done|]. destruct (p x); [|done].
    intros [[= <- <-]|[]]. simpl. lia.
  - rewrite in_map_iff. intros (rest' & [= <- <-] & Hin).
    apply star_rests_length in Hin. lia.
  - destruct s as [|x s]; [done|]. destruct (p x); [|done].
    rewrite in_map_iff. intros (rest' & [= <- <-] & Hin).
    apply star_rests_length in Hin. simpl. lia.
  - rewrite in_flat_map. intros ([g1 s1] & H1 & H2).
    apply IH1 in H1. apply IH2 in H2. simpl in *. lia.
  - rewrite in_app_iff. intros [H|H]; [apply IH1 in H|apply IH2 in H]; lia.
  - rewrite in_map_iff. intros ([g1 s1] & [= <- <-] & Hin).
    apply IH1 in Hin. simpl. lia.
  - destruct s as [|x s]; [done|]. destruct (p x); [|done].
    intros [[= <- <-]|[]]. lia.
Qed.

(** Every match of a rule of the chain, and of the array pattern, takes
    at least one character: the treatment of empty matches in [re.sub]
    never comes into play. *)
Lemma rules_take_a_character r s g rest :
  In r (array_span :: List.map fst rules) ->
  match_at r s = Some (g, rest) -> (length rest < length s)%nat.
Proof.
  intros Hr Hm.
  assert (1 <= min_len r)%nat as Hlen.
  { assert (forallb (fun r' => Nat.leb 1 (min_len r'))
                    (array_span :: List.map fst rules) = true) as Hall
      by (vm_compute; reflexivity).
    rewrite forallb_forall in Hall. apply Nat.leb_le. by apply Hall. }
  unfold match_at in Hm.
  destruct (matches r None s) as [|m l] eqn:Hms; [done|].
  injection Hm as ->.
  assert (In (g, rest) (matches r None s)) as Hin by (rewrite Hms; by left).
  apply matches_min_len in Hin. lia.
Qed.

(** *** Array extraction *)

Lemma anychar_true c : anychar c = true.
Proof. unfold anychar. by destruct (isspace c). Qed.

Lemma star_rests_anychar c s :
  star_rests anychar (c :: s) = star_rests anychar s ++ [c :: s].
Proof. simpl. by rewrite anychar_true. Qed.

Lemma close_after_star_none g b : 93 ∉ b -> close_after_star g b = [].
Proof.
  unfold close_after_star. induction b as [|x b IH]; intros Hb; [done|].
  rewrite star_rests_anychar, map_app, flat_map_app.
  rewrite IH by (intros Hin; apply Hb; by apply list_elem_of_further).
  simpl. destruct (x =? 93) eqn:Hx; [|done].
  apply N.eqb_eq in Hx. subst x. exfalso. apply Hb. apply list_elem_of_here.
Qed.

Lemma close_after_star_last g mid b :
  93 ∉ b ->
  exists tl, close_after_star g (mid ++ 93 :: b) = (g, b) :: tl.
Proof.
  intros Hb. induction mid as [|x mid [tl IH]]; simpl app.
  - unfold close_after_star. rewrite star_rests_anychar, map_app, flat_map_app.
    fold (close_after_star g b). rewrite (close_after_star_none g b Hb).
    by eexists.
  - unfold close_after_star. rewrite star_rests_anychar, map_app, flat_map_app.
    fold (close_after_star g (mid ++ 93 :: b)). rewrite IH. by eexists.
Qed.

Lemma match_at_array_span mid b :
  93 ∉ b -> match_at array_span (91 :: mid ++ 93 :: b) = Some (None, b).
Proof.
  intros Hb. unfold match_at, array_span, cat3.
  cbn [matches]. rewrite N.eqb_refl. cbn [flat_map fst snd].
  change (head (close_after_star None (mid ++ 93 :: b) ++ []) = Some (None, b)).
  destruct (close_after_star_last None mid b Hb) as [tl ->]. done.
Qed.

Lemma match_at_array_span_other x s :
  x <> 91 -> match_at array_span (x :: s) = None.
Proof.
  intros Hx. unfold match_at, array_span, cat3. cbn [matches].
  apply N.eqb_neq in Hx. by rewrite Hx.
Qed.

(** [re.search] with the array pattern returns the text from the first
    opening bracket to the last closing bracket. *)
Lemma search_array_span a mid b :
  91 ∉ a -> 93 ∉ b ->
  search array_span (a ++ 91 :: mid ++ 93 :: b) = Some (91 :: mid ++ [93]).
Proof.
  intros Ha Hb. induction a as [|x a IH].
  - cbn [app search]. rewrite (match_at_array_span mid b Hb).
    unfold consumed. f_equal.
    replace (91 :: mid ++ 93 :: b) with ((91 :: mid ++ [93]) ++ b)
      by (simpl; by rewrite <- app_assoc).
    generalize (91 :: mid ++ [93]). intros c.
    rewrite length_app.
    replace (length c + length b - length b)%nat with (length c) by lia.
    apply take_app_length.
  - cbn [app search]. rewrite match_at_array_span_other.
    + apply IH. intros Hin. apply Ha. by apply list_elem_of_further.
    + intros ->. apply Ha. apply list_elem_of_here.
Qed.

Lemma not_elem_of_forallb (x : N) (l : text) :
  forallb (fun y => negb (y =? x)) l = true -> x ∉ l.
Proof.
  rewrite forallb_forall. intros H Hin%list_elem_of_In.
  specialize (H x Hin). by rewrite N.eqb_refl in H.
Qed.

Section Around.

Variable mid : text.
Local Abbreviation span := (91 :: mid ++ [93]).

Lemma around_lstrip x : around span x -> around span (lstrip isspace x).
Proof.
  intros (a & b & -> & Ha & Hb).
  change (a ++ (91 :: mid ++ [93]) ++ b) with (a ++ 91 :: (mid ++ [93]) ++ b).
  rewrite lstrip_app_keep by done.
  exists (lstrip isspace a), b. split; [done|]. split; [|done].
  destruct (lstrip_suffix isspace a) as [w Hw]. intros Hin. apply Ha.
  rewrite Hw. apply elem_of_app. by right.
Qed.

Lemma around_rstrip x : around span x -> around span (rstrip isspace x).
Proof.
  intros (a & b & -> & Ha & Hb).
  replace (a ++ (91 :: mid ++ [93]) ++ b) with ((a ++ 91 :: mid) ++ 93 :: b)
    by (simpl; by rewrite <- !app_assoc).
  rewrite rstrip_app_keep by done.
  exists a, (rstrip isspace b).
  split; [simpl; by rewrite <- !app_assoc|]. split; [done|].
  destruct (rstrip_prefix isspace b) as [w Hw]. intros Hin. apply Hb.
  rewrite Hw. apply elem_of_app. by left.
Qed.

Lemma around_strip x : around span x -> around span (strip x).
Proof. intros H. unfold strip. by apply around_rstrip, around_lstrip. Qed.

Lemma around_drop_prefix x p :
  91 ∉ p -> startswith x p = true -> around span x ->
  around span (slice_from (length p) x).
Proof.
  intros Hp Hsw (a & b & -> & Ha & Hb).
  change (a ++ (91 :: mid ++ [93]) ++ b)
    with (a ++ 91 :: (mid ++ [93]) ++ b) in Hsw.
  apply startswith_app_inv in Hsw as [a' ->]; [|done].
  rewrite <- app_assoc. rewrite slice_from_app.
  exists a', b. split; [done|]. split; [|done].
  intros Hin. apply Ha. apply elem_of_app. by right.
Qed.

Lemma around_drop_suffix x p :
  93 ∉ p -> endswith x p = true -> around span x ->
  around span (slice_but_last (length p) x).
Proof.
  intros Hp Hew (a & b & -> & Ha & Hb).
  replace (a ++ (91 :: mid ++ [93]) ++ b) with ((a ++ 91 :: mid) ++ 93 :: b)
    in * by (simpl; by rewrite <- !app_assoc).
  apply endswith_app_inv in Hew as [b' ->]; [|done].
  replace ((a ++ 91 :: mid) ++ 93 :: b' ++ p)
    with (((a ++ 91 :: mid) ++ 93 :: b') ++ p)
    by (by rewrite <- !app_assoc).
  rewrite slice_but_last_app.
  exists a, b'. split; [simpl; by rewrite <- !app_assoc|]. split; [done|].
  intros Hin. apply Hb. apply elem_of_app. by left.
Qed.

Lemma around_strip_fence x : around span x -> around span (strip_fence x).
Proof.
  intros H. unfold strip_fence. apply around_strip.
  apply around_strip in H.
  assert (around span
            (if startswith (strip x) fence_json then slice_from 7 (strip x)
             else if startswith (strip x) fence then slice_from 3 (strip x)
                  else strip x)) as H1.
  { destruct (startswith (strip x) fence_json) eqn:Hj.
    - apply (around_drop_prefix (strip x) fence_json); try done.
      by apply not_elem_of_forallb.
    - destruct (startswith (strip x) fence) eqn:Hf; [|done].
      apply (around_drop_prefix (strip x) fence); try done.
      by apply not_elem_of_forallb. }
  destruct (endswith _ fence) eqn:He; [|done].
  apply (around_drop_suffix _ fence); try done.
  by apply not_elem_of_forallb.
Qed.

End Around.


(** C4, as amended.  For every text made of a bracketed span that
    parses strictly, after a part without an opening bracket and before a
    part without a closing bracket: the candidate the pattern finds in the
    fence-stripped text is the span (the text from its first opening
    bracket to its last closing bracket); and when strict parsing of the
    fence-stripped text fails with a structural-parse error, the
    normaliser returns what the span alone parses to if the first 500
    characters of the fence-stripped text can be printed, and raises
    [UnicodeEncodeError] before it looks for the span if they cannot; any
    other outcome of strict parsing, a value or another error, is the
    outcome of the normaliser.  The data directory is as it was. *)
Theorem extraction_returns_span limit now d pre mid post v :
  91 ∉ pre -> 93 ∉ post ->
  json_loads limit (91 :: mid ++ [93]) = Ok v ->
  (exists a b, strip_fence (pre ++ (91 :: mid ++ [93]) ++ post)
               = a ++ (91 :: mid ++ [93]) ++ b /\ (91 ∉ a) /\ (93 ∉ b)) /\
  search array_span (strip_fence (pre ++ (91 :: mid ++ [93]) ++ post))
  = Some (91 :: mid ++ [93]) /\
  parse_response limit now (pre ++ (91 :: mid ++ [93]) ++ post) d
  = match json_loads limit (strip_fence (pre ++ (91 :: mid ++ [93]) ++ post))
    with
    | Raise (JSONDecodeError _) =>
        if encodable
             (take 500 (strip_fence (pre ++ (91 :: mid ++ [93]) ++ post)))
        then (Ok v, d)
        else (Raise UnicodeEncodeError, d)
    | result => (result, d)
    end.
Proof.
  intros Hpre Hpost Hspan.
  assert (around (91 :: mid ++ [93]) (pre ++ (91 :: mid ++ [93]) ++ post)) as Har.
  { by exists pre, post. }
  apply around_strip_fence in Har. destruct Har as (a & b & Hsf & Ha & Hb).
  assert (search array_span (strip_fence (pre ++ (91 :: mid ++ [93]) ++ post))
          = Some (91 :: mid ++ [93])) as Hsearch.
  { rewrite Hsf.
    replace (a ++ (91 :: mid ++ [93]) ++ b) with (a ++ 91 :: mid ++ 93 :: b)
      by (simpl; by rewrite <- !app_assoc).
    by apply search_array_span. }
  split; [by exists a, b|]. split; [done|].
  unfold parse_response, print. rewrite Hsearch, Hspan.
  destruct (json_loads limit _) as [w|[doc| | | | | | | |tag]]; try done.
  by destruct (encodable _).
Qed.

(** C4, as stated, fails: after the one-element array come a blank and a
    lone surrogate, the text as a whole does not parse, and the
    normaliser raises [UnicodeEncodeError] where it prints the start of
    the text, before it looks for the span. *)
Lemma extraction_stopped_by_print :
  span_then_surrogate = [] ++ (91 :: str "1" ++ [93]) ++ [32; 55296] /\
  json_loads room (91 :: str "1" ++ [93]) = Ok (JArr [JInt 1]) /\
  json_loads room (strip_fence span_then_surrogate)
  = Raise (JSONDecodeError span_then_surrogate) /\
  parse_response room noon span_then_surrogate empty_dir
  = (Raise UnicodeEncodeError, empty_dir).
Proof. split; [|split; [|split]]; vm_compute; reflexivity. Qed.



Lemma extraction_returns_span_witness :
  search array_span (strip_fence (str "Here you go: " ++
                                  (91 :: str "1, 2" ++ [93]) ++ str " Enjoy!"))
  = Some (91 :: str "1, 2" ++ [93]) /\
  parse_response room noon
                 (str "Here you go: " ++ (91 :: str "1, 2" ++ [93]) ++
                  str " Enjoy!") empty_dir
  = (Ok (JArr [JInt 1; JInt 2]), empty_dir).
Proof.
  destruct (extraction_returns_span room noon empty_dir
              (str "Here you go: ") (str "1, 2") (str " Enjoy!")
              (JArr [JInt 1; JInt 2]))
    as (_ & Hsearch & Hparse).
  - by apply not_elem_of_forallb.
  - by apply not_elem_of_forallb.
  - vm_compute. reflexivity.
  - split; [exact Hsearch|]. rewrite Hparse. vm_compute. reflexivity.
Defined.

End ParsePathFacts.

(** ** Time stamps and the order of the raw-data names *)

Module ClockFacts.

Import TrendAnalyzer ClockSpec.

Lemma digit_char_range n : 48 <= digit_char n <= 57.
Proof.
  unfold digit_char. assert (n mod 10 < 10) as H by (by apply N.mod_upper_bound).
  revert H. generalize (n mod 10). intros. lia.
Qed.

Lemma replace_char_cons_ne c r x s :
  x <> c -> replace_char c r (x :: s) = x :: replace_char c r s.
Proof.
  intros H. unfold replace_char. simpl.
  apply N.eqb_neq in H. by rewrite H.
Qed.

Lemma replace_char_digit c r n s :
  c < 48 \/ 57 < c ->
  replace_char c r (digit_char n :: s) = digit_char n :: replace_char c r s.
Proof.
  intros H. apply replace_char_cons_ne. pose proof (digit_char_range n). lia.
Qed.

Lemma replace_char_cons_eq c r s :
  replace_char c r (c :: s) = r ++ replace_char c r s.
Proof. unfold replace_char. simpl. by rewrite N.eqb_refl. Qed.

(** X1.  The timestamp of the report names: cleaning the printed time of its
    separators gives the compact form of the same clock reading, the form
    of the raw-data and debug names. *)
Theorem ts_clean_pretty (now : datetime) :
  ts_clean (strftime_pretty now) = strftime_compact now.
Proof.
  unfold ts_clean, strftime_pretty, strftime_compact, pad4, pad2.
  cbn [app].
  repeat first [ rewrite replace_char_cons_eq; cbn [app]
               | rewrite replace_char_digit by lia
               | rewrite replace_char_cons_ne by lia ].
  reflexivity.
Qed.

Lemma text_leb_compare a b :
  text_leb a b = true <-> text_compare a b <> Gt.
Proof.
  revert b. induction a as [|x a IH]; intros [|y b]; simpl; try done.
  destruct (N.compare_spec x y) as [->|Hlt|Hgt].
  - rewrite N.ltb_irrefl, N.eqb_refl. simpl. apply IH.
  - apply N.ltb_lt in Hlt. rewrite Hlt. simpl. done.
  - assert ((x <? y) = false) as -> by (apply N.ltb_ge; lia).
    assert ((x =? y) = false) as -> by (apply N.eqb_neq; lia). simpl. done.
Qed.

Lemma text_compare_app u v x y :
  length u = length v ->
  text_compare (u ++ x) (v ++ y) = lex (text_compare u v) (text_compare x y).
Proof.
  revert v. induction u as [|a u IH]; intros [|b v] Hlen; simpl in *; try done.
  destruct (a ?= b); try done. apply IH. lia.
Qed.

Lemma text_compare_refl a : text_compare a a = Eq.
Proof. induction a as [|x a IH]; simpl; [done|]. by rewrite N.compare_refl. Qed.

Lemma lex_eq_r c : lex c Eq = c.
Proof. by destruct c. Qed.

Lemma compare_add_l (p a b : N) : (p + a ?= p + b) = (a ?= b).
Proof.
  destruct (N.compare_spec a b) as [->|Hlt|Hgt].
  - apply N.compare_refl.
  - apply N.compare_lt_iff. lia.
  - apply N.compare_gt_iff. lia.
Qed.

Lemma compare_lex (a1 a2 r1 r2 B : N) :
  r1 < B -> r2 < B ->
  (a1 * B + r1 ?= a2 * B + r2) = lex (a1 ?= a2) (r1 ?= r2).
Proof.
  intros H1 H2.
  destruct (N.compare_spec a1 a2) as [->|Hlt|Hgt]; simpl.
  - by rewrite compare_add_l.
  - apply N.compare_lt_iff. nia.
  - apply N.compare_gt_iff. nia.
Qed.

Lemma digit_char_compare x y :
  x < 10 -> y < 10 -> (digit_char x ?= digit_char y) = (x ?= y).
Proof.
  intros Hx Hy. unfold digit_char.
  rewrite !N.mod_small by done. by rewrite compare_add_l.
Qed.

Lemma digit_char_last n : digit_char n = digit_char (n mod 10).
Proof. unfold digit_char. by rewrite N.Div0.mod_mod. Qed.

Lemma pad2_compare a b :
  a < 100 -> b < 100 -> text_compare (pad2 a) (pad2 b) = (a ?= b).
Proof.
  intros Ha Hb. unfold pad2. simpl.
  rewrite (digit_char_last a), (digit_char_last b).
  assert (a / 10 < 10) by (apply N.Div0.div_lt_upper_bound; lia).
  assert (b / 10 < 10) by (apply N.Div0.div_lt_upper_bound; lia).
  assert (a mod 10 < 10) by (by apply N.mod_upper_bound).
  assert (b mod 10 < 10) by (by apply N.mod_upper_bound).
  rewrite !digit_char_compare by done.
  rewrite (N.div_mod' a 10) at 3. rewrite (N.div_mod' b 10) at 3.
  rewrite (N.mul_comm 10 (a / 10)), (N.mul_comm 10 (b / 10)).
  rewrite compare_lex by done.
  destruct (a / 10 ?= b / 10); simpl; try done.
  by destruct (a mod 10 ?= b mod 10).
Qed.

Lemma pad4_split n : pad4 n = pad2 (n / 100) ++ pad2 (n mod 100).
Proof.
  unfold pad4, pad2. simpl.
  rewrite N.Div0.div_div. change (100 * 10) with 1000.
  f_equal. f_equal.
  assert (n = 100 * (n / 100) + n mod 100) as Hn by apply N.div_mod'.
  assert (n mod 100 < 100) as Hr by (by apply N.mod_upper_bound).
  revert Hn Hr. generalize (n / 100) (n mod 100). intros q r -> Hr.
  f_equal.
  - unfold digit_char. f_equal.
    replace (100 * q + r) with (r + (10 * q) * 10) by lia.
    rewrite N.div_add by done.
    replace (r / 10 + 10 * q) with (r / 10 + q * 10) by lia.
    by rewrite N.Div0.mod_add.
  - f_equal. unfold digit_char. f_equal.
    replace (100 * q + r) with (r + (10 * q) * 10) by lia.
    by rewrite N.Div0.mod_add.
Qed.

Lemma pad2_length n : length (pad2 n) = 2%nat.
Proof. done. Qed.

Lemma pad4_compare a b :
  a < 10000 -> b < 10000 -> text_compare (pad4 a) (pad4 b) = (a ?= b).
Proof.
  intros Ha Hb. rewrite !pad4_split.
  rewrite text_compare_app by done.
  assert (a / 100 < 100) by (apply N.Div0.div_lt_upper_bound; lia).
  assert (b / 100 < 100) by (apply N.Div0.div_lt_upper_bound; lia).
  assert (a mod 100 < 100) by (by apply N.mod_upper_bound).
  assert (b mod 100 < 100) by (by apply N.mod_upper_bound).
  rewrite !pad2_compare by done.
  rewrite (N.div_mod' a 100) at 3. rewrite (N.div_mod' b 100) at 3.
  rewrite (N.mul_comm 100 (a / 100)), (N.mul_comm 100 (b / 100)).
  by rewrite compare_lex.
Qed.

Lemma strftime_compact_compare t1 t2 :
  printable t1 -> printable t2 ->
  text_compare (strftime_compact t1) (strftime_compact t2)
  = (instant t1 ?= instant t2).
Proof.
  intros (Hy1 & Hm1 & Hd1 & HH1 & HM1 & HS1) (Hy2 & Hm2 & Hd2 & HH2 & HM2 & HS2).
  unfold strftime_compact, instant.
  rewrite !compare_lex by done.
  rewrite !text_compare_app by done.
  rewrite pad4_compare, !pad2_compare by done.
  simpl text_compare at 1.
  destruct (year t1 ?= year t2), (month t1 ?= month t2), (day t1 ?= day t2),
    (hour t1 ?= hour t2), (minute t1 ?= minute t2); done.
Qed.

Lemma raw_name_compare s a b :
  length a = length b ->
  text_compare (raw_name s a) (raw_name s b) = text_compare a b.
Proof.
  intros Hlen. unfold raw_name.
  rewrite text_compare_app by done. rewrite text_compare_refl. simpl.
  rewrite text_compare_app by done. by rewrite text_compare_refl, lex_eq_r.
Qed.

Lemma strftime_compact_length t : length (strftime_compact t) = 15%nat.
Proof. done. Qed.

(** A text below the surrogates can be encoded, as content and as a
    name. *)
Lemma low_encodable s :
  Forall (fun c => c < 55296) s ->
  encodable s = true /\ name_encodable s = true.
Proof.
  intros H. unfold encodable, name_encodable. rewrite !forallb_forall.
  rewrite Forall_forall in H.
  assert (forall c, In c s -> is_surrogate c = false) as Hs.
  { intros c Hc%list_elem_of_In. specialize (H c Hc).
    unfold is_surrogate, in_range.
    assert ((55296 <=? c) = false) as -> by (apply N.leb_gt; lia). done. }
  split; intros c Hc; by rewrite (Hs c Hc).
Qed.

Lemma strftime_compact_low t : Forall (fun c => c < 55296) (strftime_compact t).
Proof.
  unfold strftime_compact, pad4, pad2. cbn [app].
  repeat (constructor;
          [first [ lia
                 | match goal with
                   | |- digit_char ?n < _ =>
                       pose proof (digit_char_range n); lia
                   end ]|]).
  constructor.
Qed.

(** The name of the debug file is one the file system takes. *)
Lemma debug_name_encodable now : name_encodable (debug_name now) = true.
Proof.
  apply low_encodable. unfold debug_name.
  rewrite !Forall_app. split; [|split].
  - apply Forall_forall. intros c Hc.
    assert (forallb (fun c => c <? 55296) (str "debug_json_") = true) as Hall
      by (vm_compute; reflexivity).
    rewrite forallb_forall in Hall. apply list_elem_of_In in Hc.
    apply N.ltb_lt. by apply Hall.
  - apply strftime_compact_low.
  - apply Forall_forall. intros c Hc.
    assert (forallb (fun c => c <? 55296) (str ".txt") = true) as Hall
      by (vm_compute; reflexivity).
    rewrite forallb_forall in Hall. apply list_elem_of_In in Hc.
    apply N.ltb_lt. by apply Hall.
Qed.

End ClockFacts.

Module LatestFacts.

Import TrendAnalyzer LoaderSpec LoaderFacts ClockSpec ClockFacts Fixtures.

(** X2.  The order of the raw-data names is the order of their timestamps in
    time: for readings of the clock that print in full width, the name of
    the earlier reading is the smaller [str].  So the loader never returns a
    raw-data file while the directory holds one of the same source with a
    later timestamp. *)
Theorem latest_raw_file_is_most_recent (s : source) (t1 t2 : datetime) :
  printable t1 -> printable t2 ->
  (text_leb (raw_name s (strftime_compact t1))
            (raw_name s (strftime_compact t2)) = true
   <-> instant t1 <= instant t2) /\
  (forall d : dir,
      instant t1 < instant t2 ->
      raw_name s (strftime_compact t2) ∈ names d ->
      get_latest_data_file s d <> Ok (raw_name s (strftime_compact t1))).
Proof.
  intros H1 H2.
  assert (forall a b, printable a -> printable b ->
            (text_leb (raw_name s (strftime_compact a))
                      (raw_name s (strftime_compact b)) = true
             <-> instant a <= instant b)) as Hord.
  { intros a b Ha Hb. rewrite text_leb_compare.
    rewrite raw_name_compare by done.
    by rewrite strftime_compact_compare. }
  split; [by apply Hord|].
  intros d Hlt Hin Hget.
  unfold get_latest_data_file in Hget.
  destruct (sorted_desc _) as [|h t] eqn:Hs; [done|].
  injection Hget as ->.
  apply sorted_desc_head in Hs as [_ Hmax].
  assert (text_leb (raw_name s (strftime_compact t2))
                   (raw_name s (strftime_compact t1)) = true) as Hle.
  { apply Hmax. apply (elem_of_raw_files s d). split; [done|].
    apply raw_pattern_matches. by eexists. }
  apply Hord in Hle; [lia|done..].
Qed.

Lemma latest_raw_file_is_most_recent_witness :
  (text_leb (raw_name weibo (strftime_compact noon))
            (raw_name weibo (strftime_compact one_second_later)) = true
   <-> instant noon <= instant one_second_later) /\
  (forall d : dir,
      instant noon < instant one_second_later ->
      raw_name weibo (strftime_compact one_second_later) ∈ names d ->
      get_latest_data_file weibo d
      <> Ok (raw_name weibo (strftime_compact noon))).
Proof.
  apply (latest_raw_file_is_most_recent weibo noon one_second_later);
    vm_compute; repeat split; reflexivity.
Defined.

End LatestFacts.

(** ** Blank responses, and the older normaliser *)

Module ResponseFacts.

Import Regex TrendAnalyzer PyStrFacts ClockFacts Fixtures.

Lemma strip_blank s : forallb isspace s = true -> strip s = [].
Proof. intros H. unfold strip. by rewrite (lstrip_all _ _ H). Qed.

Lemma strip_fence_blank s : forallb isspace s = true -> strip_fence s = [].
Proof. intros H. unfold strip_fence. by rewrite (strip_blank _ H). Qed.

(** X3.  A response of blanks only (or an empty one) cannot be repaired: the
    normaliser raises the structural-parse error of the empty document and
    leaves a debug file that holds the two headers and no text. *)
Theorem blank_response_debug (limit : nat) (now : datetime) (response : text)
        (files : gmap text text) :
  forallb isspace response = true ->
  parse_response limit now response (Some files)
  = (Raise (JSONDecodeError []),
     Some (<[debug_name now := header_original ++ header_fixed_text]> files)).
Proof.
  intros H. unfold parse_response. rewrite (strip_fence_blank _ H).
  change (json_loads limit []) with (@Raise json (JSONDecodeError [])).
  cbv iota beta.
  change (print (take 500 [])) with (Ok ()). cbv iota.
  change (search array_span []) with (@None text). cbv iota.
  change (_fix_json []) with (@nil N). cbv zeta.
  change (json_loads limit []) with (@Raise json (JSONDecodeError [])).
  cbv iota beta.
  unfold save_debug_and_raise, write_parts.
  by rewrite debug_name_encodable.
Qed.

Lemma blank_response_debug_witness :
  parse_response room noon (str "  ") (Some ∅)
  = (Raise (JSONDecodeError []),
     Some (<[debug_name noon := header_original ++ header_fixed_text]> ∅)).
Proof.
  apply (blank_response_debug room noon (str "  ") ∅). reflexivity.
Defined.

(** X4.  What the older analyzer makes of a response, the newer one makes of
    it too: a value the older returns is returned by the newer, and an
    error of the older that is not a structural-parse error is raised by the
    newer; in both cases the newer writes nothing. *)
Theorem older_parse_is_kept (limit : nat) (now : datetime) (response : text)
        (d : dir) :
  (forall v, WeiboAnalyzer.parse_response limit response = Ok v ->
             parse_response limit now response d = (Ok v, d)) /\
  (forall e, WeiboAnalyzer.parse_response limit response = Raise e ->
             (forall doc, e <> JSONDecodeError doc) ->
             parse_response limit now response d = (Raise e, d)).
Proof.
  unfold WeiboAnalyzer.parse_response, parse_response.
  destruct (json_loads limit (strip_fence response))
    as [v0|[doc0| | | | | | | |tag]];
    try (split; [by intros v [= ->] | by intros e [= <-] _]).
  destruct (print (take 500 (strip_fence response))) as [[]|e0]; cbn [bind];
    [|split; [done|by intros e [= <-] _]].
  destruct (search array_span (strip_fence response)) as [extracted|].
  - destruct (json_loads limit extracted) as [v1|[doc1| | | | | | | |tag]];
      try (split; [by intros v [= ->] | by intros e [= <-] _]).
    split; [done|]. intros e [= <-] He. by destruct (He doc1).
  - split; [done|]. intros e [= <-] He. by destruct (He doc0).
Qed.

Lemma older_parse_is_kept_witness :
  WeiboAnalyzer.parse_response room (js "x [1] y") = Ok (JArr [JInt 1]) /\
  parse_response room noon (js "x [1] y") empty_dir
  = (Ok (JArr [JInt 1]), empty_dir).
Proof.
  split; [vm_compute; reflexivity|].
  apply (proj1 (older_parse_is_kept room noon (js "x [1] y") empty_dir)).
  vm_compute. reflexivity.
Defined.

End ResponseFacts.

(** ** What a run writes *)

Module RunFacts.

Import TrendAnalyzer ConfigLoader NormalizerFacts ClockFacts Fixtures.

Lemma read_file_insert_ne (name n content : text) (files : gmap text text) :
  n <> name ->
  read_file n (Some (<[name := content]> files)) = read_file n (Some files).
Proof. intros H. unfold read_file. by rewrite lookup_insert_ne. Qed.

Lemma read_file_insert (name content : text) (files : gmap text text) :
  name_encodable name = true ->
  read_file name (Some (<[name := content]> files)) = Ok content.
Proof. intros H. unfold read_file. by rewrite H, lookup_insert_eq. Qed.

Lemma read_file_ensure_dir n d : read_file n (ensure_dir d) = read_file n d.
Proof. destruct d; [done|]. unfold read_file. simpl. by rewrite lookup_empty. Qed.


(** A file written without an error holds its parts one after the
    other. *)
Lemma write_parts_ok name parts d d' :
  write_parts name parts d = (Ok (), d') ->
  exists files, d = Some files /\
                d' = Some (<[name := concat parts]> files) /\
                name_encodable name = true.
Proof.
  unfold write_parts. destruct (name_encodable name); [|done].
  destruct d as [files|]; [|done].
  destruct (fst (write_all parts [])) as [[]|e] eqn:Hw; [|done].
  rewrite (write_all_ok _ _ Hw). intros [= <-]. by exists files.
Qed.

Lemma write_file_ok name content d d' :
  write_file name content d = (Ok (), d') ->
  exists files, d = Some files /\
                d' = Some (<[name := content]> files) /\
                name_encodable name = true.
Proof.
  unfold write_file. intros H.
  apply write_parts_ok in H as (files & -> & -> & Hn).
  exists files. cbn [concat]. by rewrite app_nil_r.
Qed.


Lemma parse_response_ok limit now response d v d' :
  parse_response limit now response d = (Ok v, d') -> d' = d.
Proof.
  assert (forall parts e,
             save_debug_and_raise now parts e d = (Ok v, d') -> d' = d)
    as Hsave.
  { intros parts e. unfold save_debug_and_raise.
    by destruct (write_parts (debug_name now) parts d) as [[[]|e'] d1]. }
  assert (forall x : outcome json, (x, d) = (Ok v, d') -> d' = d) as Hkeep.
  { by intros x [= _ <-]. }
  unfold parse_response.
  destruct (json_loads limit (strip_fence response))
    as [v0|[doc0| | | | | | | |tag]];
    [apply Hkeep| |apply Hkeep..].
  destruct (print (take 500 (strip_fence response))) as [[]|e0];
    [|apply Hkeep].
  destruct (Regex.search array_span (strip_fence response)) as [extracted|].
  - destruct (json_loads limit extracted) as [v1|[doc1| | | | | | | |tag]];
      [apply Hkeep| |apply Hkeep..].
    destruct (json_loads limit (_fix_json extracted))
      as [v2|[doc2| | | | | | | |tag]];
      [apply Hkeep|apply Hsave|apply Hkeep..].
  - destruct (json_loads limit (_fix_json (strip_fence response)))
      as [v2|[doc2| | | | | | | |tag]];
      [apply Hkeep|apply Hsave|apply Hkeep..].
Qed.

Section Run.

Variable float_cmp : text -> Z -> option comparison.
Variable complete : text -> json -> outcome text.
Variable render_html : text -> text -> json -> Z * Z * Z -> outcome text.
Variable format_name : text -> text -> text -> outcome text.
Variable dump_chunks : json -> list text * outcome unit.
Variable file_limit : nat.
Variable limit : nat.

Local Abbreviation analyze_topics := (analyze_topics complete file_limit limit).
Local Abbreviation generate_html_report :=
  (generate_html_report float_cmp render_html format_name).
Local Abbreviation run :=
  (run float_cmp complete render_html format_name dump_chunks file_limit limit).


Lemma analyze_topics_ok c s now data_file d v d' :
  analyze_topics c s now data_file d = (Ok v, d') -> d' = d.
Proof.
  unfold TrendAnalyzer.analyze_topics.
  destruct (_ <-- read_file data_file d; _) as [topics|e]; [|done].
  destruct (complete _ _) as [response|e]; [|done].
  apply parse_response_ok.
Qed.

Lemma generate_html_report_ok c s analysis timestamp d report d' :
  generate_html_report c s analysis timestamp d = (Ok report, d') ->
  exists counts html files,
    grade_counts float_cmp c analysis = Ok counts /\
    render_html (source_name s) timestamp analysis counts = Ok html /\
    format_name (report_filename_format c) (source_id s) (ts_clean timestamp)
    = Ok report /\
    ensure_dir d = Some files /\
    name_encodable report = true /\
    d' = Some (<[index_name s := html]> (<[report := html]> files)).
Proof.
  unfold TrendAnalyzer.generate_html_report.
  destruct (grade_counts float_cmp c analysis) as [counts|e]; [|done].
  cbn [bind].
  destruct (render_html _ _ _ _) as [html|e] eqn:Hr; [|done].
  destruct (format_name _ _ _) as [name|e] eqn:Hn; [|done].
  destruct (write_file name html (ensure_dir d)) as [[[]|e] d1] eqn:Hw1;
    [|done].
  apply write_file_ok in Hw1 as (files & Hd & -> & Hname).
  destruct (write_file (index_name s) html _) as [[[]|e] d2] eqn:Hw2; [|done].
  apply write_file_ok in Hw2 as (files2 & [= <-] & -> & _).
  intros [= <- <-]. by eexists _, _, _.
Qed.

(** X5.  A report that is written is written twice: under the name the
    configured format gives and as the index of the source, with the same
    content, after the directory is made if it was missing; no other file
    changes.  A list the counters reject fails the report before the
    directory is touched. *)
Theorem report_and_index_agree (c : config) (s : source) (analysis : json)
        (timestamp : text) (d : dir) :
  (forall report d',
      generate_html_report c s analysis timestamp d = (Ok report, d') ->
      exists html,
        read_file report d' = Ok html /\
        read_file (index_name s) d' = Ok html /\
        forall n, n <> report -> n <> index_name s ->
                  read_file n d' = read_file n d) /\
  (forall e, grade_counts float_cmp c analysis = Raise e ->
             generate_html_report c s analysis timestamp d = (Raise e, d)).
Proof.
  split.
  - intros report d' H.
    assert (name_encodable (index_name s) = true) as Hindex
      by (by destruct s).
    apply generate_html_report_ok in H
        as (counts & html & files & _ & _ & _ & Hd & Hname & ->).
    exists html. split; [|split].
    + destruct (decide (report = index_name s)) as [->|Hne].
      * by apply read_file_insert.
      * rewrite read_file_insert_ne by done. by apply read_file_insert.
    + by apply read_file_insert.
    + intros n H1 H2. rewrite !read_file_insert_ne by done.
      rewrite <- Hd. apply read_file_ensure_dir.
  - intros e H. unfold TrendAnalyzer.generate_html_report. by rewrite H.
Qed.



(** X7.  A run that returns status 0 found the data directory, took the
    greatest raw-data file, had an analysis of it without writing anything,
    and left three files more than it found: the report and the JSON result
    under the names the two formats give for the source and the compact
    timestamp of the clock reading, and the index of the source, which is a
    copy of the report.  The JSON result holds all that the encoder gave, and
    the encoder ended without an error. *)
Theorem run_success (c : config) (s : source) (now : datetime) (d d' : dir) :
  run c s now d = (0%Z, d') ->
  exists data_file analysis html report json_file (files : gmap text text),
    d = Some files /\
    get_latest_data_file s d = Ok data_file /\
    analyze_topics c s now data_file d = (Ok analysis, d) /\
    format_name (report_filename_format c) (source_id s)
                (strftime_compact now) = Ok report /\
    format_name (intermediate_filename c) (source_id s)
                (strftime_compact now) = Ok json_file /\
    snd (dump_chunks analysis) = Ok () /\
    d' = Some (<[json_file := concat (fst (dump_chunks analysis))]>
                 (<[index_name s := html]> (<[report := html]> files))).
Proof.
  unfold TrendAnalyzer.run.
  destruct (get_latest_data_file s d) as [data_file|e] eqn:Hl; [|done].
  cbn [bind]. destruct (print data_file) as [[]|e]; [|done]. cbn [bind].
  destruct (analyze_topics c s now data_file d) as [r d1] eqn:Ha.
  destruct r as [analysis|e]; [|done].
  apply analyze_topics_ok in Ha as Hd1. subst d1.
  destruct (py_len analysis); [|done].
  destruct (TrendAnalyzer.generate_html_report _ _ _ _ _ _ _ _)
    as [[report|e] d2] eqn:Hg; [|done].
  apply generate_html_report_ok in Hg
      as (counts & html & files & _ & _ & Hr & Hd & _ & ->).
  rewrite ts_clean_pretty in *.
  destruct (print report) as [[]|e]; [|done]. cbn [bind].
  destruct (format_name (intermediate_filename c) _ _) as [json_file|e] eqn:Hj;
    [|done].
  destruct (write_parts json_file _ _) as [[[]|e] d3] eqn:Hw; [|done].
  apply write_parts_ok in Hw as (files' & [= <-] & -> & _).
  destruct (snd (dump_chunks analysis)) as [[]|e] eqn:Hdump; [|done].
  cbn [bind]. destruct (print json_file) as [[]|e]; [|done].
  intros [= <-].
  destruct d as [files0|]; [|done]. injection Hd as <-.
  by exists data_file, analysis, html, report, json_file, files0.
Qed.

(** X8.  A run can end with status 1 after the report is out: when the
    report and the index are written and the name of the JSON result
    cannot be made, the run returns 1 and the report and the index stay in
    the data directory. *)
Theorem report_stays_when_result_fails (c : config) (s : source)
        (now : datetime) (d d1 : dir) (data_file report : text)
        (analysis : json) (k : nat) (e : exn) :
  get_latest_data_file s d = Ok data_file ->
  encodable data_file = true ->
  analyze_topics c s now data_file d = (Ok analysis, d) ->
  py_len analysis = Ok k ->
  generate_html_report c s analysis (strftime_pretty now) d = (Ok report, d1) ->
  format_name (intermediate_filename c) (source_id s) (strftime_compact now)
  = Raise e ->
  run c s now d = (1%Z, d1) /\
  exists html, read_file report d1 = Ok html /\
               read_file (index_name s) d1 = Ok html.
Proof.
  intros Hl Hp Ha Hk Hg Hj.
  split.
  2:{ assert (name_encodable (index_name s) = true) as Hindex
        by (by destruct s).
      apply generate_html_report_ok in Hg
          as (counts & html & files & _ & _ & _ & _ & Hname & ->).
      exists html. split; [|by apply read_file_insert].
      destruct (decide (report = index_name s)) as [->|Hne].
      - by apply read_file_insert.
      - rewrite read_file_insert_ne by done. by apply read_file_insert. }
  unfold TrendAnalyzer.run, print. rewrite Hl. cbn [bind]. rewrite Hp.
  cbn [bind]. rewrite Ha, Hk, Hg. rewrite ts_clean_pretty, Hj.
  by destruct (encodable report).
Qed.

(** X12.  An analysis the counters reject publishes nothing: when the
    response parses to a value with an entry that is not a record, or
    with a score that is not a number, the run returns 1 and the data
    directory is as it was. *)
Theorem run_rejected_analysis (c : config) (s : source) (now : datetime)
        (d : dir) (data_file : text) (analysis : json) (k : nat) (e : exn) :
  get_latest_data_file s d = Ok data_file ->
  analyze_topics c s now data_file d = (Ok analysis, d) ->
  py_len analysis = Ok k ->
  grade_counts float_cmp c analysis = Raise e ->
  run c s now d = (1%Z, d).
Proof.
  intros Hl Ha Hk Hg. unfold TrendAnalyzer.run. rewrite Hl. cbn [bind].
  destruct (print data_file) as [[]|e0]; [|done]. cbn [bind].
  rewrite Ha, Hk. unfold generate_html_report. by rewrite Hg.
Qed.

End Run.


Lemma run_success_witness :
  exists data_file analysis html report json_file (files : gmap text text),
    one_topic_dir = Some files /\
    get_latest_data_file weibo one_topic_dir = Ok data_file /\
    analyze_topics fixed_completion room room one_topic_config weibo noon
                   data_file one_topic_dir = (Ok analysis, one_topic_dir) /\
    plain_name (report_filename_format one_topic_config) (source_id weibo)
               (strftime_compact noon) = Ok report /\
    plain_name (intermediate_filename one_topic_config) (source_id weibo)
               (strftime_compact noon) = Ok json_file /\
    snd (plain_dumps analysis) = Ok () /\
    snd (TrendAnalyzer.run no_float fixed_completion plain_html plain_name
           plain_dumps room room one_topic_config weibo noon one_topic_dir)
    = Some (<[json_file := concat (fst (plain_dumps analysis))]>
              (<[index_name weibo := html]> (<[report := html]> files))).
Proof.
  apply (run_success no_float fixed_completion plain_html plain_name
           plain_dumps room room one_topic_config weibo noon one_topic_dir).
  vm_compute. reflexivity.
Defined.

Lemma report_stays_when_result_fails_witness :
  exists d1,
    TrendAnalyzer.run no_float fixed_completion plain_html
      html_only_name plain_dumps room room one_topic_config weibo
      noon one_topic_dir = (1%Z, d1) /\
    exists html, read_file (str "weibo20250102_120000") d1 = Ok html /\
                 read_file (index_name weibo) d1 = Ok html.
Proof.
  eexists.
  apply (report_stays_when_result_fails no_float fixed_completion plain_html
           html_only_name plain_dumps room room one_topic_config
           weibo noon one_topic_dir _ one_topic_file
           (str "weibo20250102_120000")
           (JArr [JObj [(str "rank", JInt 1); (str "total_score", JInt 50)];
                  JObj [(str "rank", JInt 7); (str "total_score", JInt 90)]])
           2 KeyError);
    vm_compute; reflexivity.
Defined.

Lemma run_rejected_analysis_witness :
  TrendAnalyzer.run no_float numbers_completion plain_html plain_name
    plain_dumps room room one_topic_config weibo noon one_topic_dir
  = (1%Z, one_topic_dir).
Proof.
  apply (run_rejected_analysis no_float numbers_completion plain_html
           plain_name plain_dumps room room one_topic_config weibo noon
           one_topic_dir one_topic_file (JArr [JInt 1; JInt 2]) 2
           AttributeError);
    vm_compute; reflexivity.
Defined.

End RunFacts.

(** ** The project root *)

Module PathFacts.

Import PathManager PathSpec.

Lemma parent_fixed p : parent p = p -> p = [].
Proof.
  unfold parent. destruct p as [|x p] using rev_ind; [done|].
  rewrite removelast_last. intros H.
  apply (f_equal length) in H. rewrite length_app in H. simpl in H. lia.
Qed.

Lemma up_root n : up n [] = [].
Proof.
  induction n as [|n IH]; [done|].
  change (up (S n) []) with (parent (up n [])). by rewrite IH.
Qed.

Lemma up_parent n p : up n (parent p) = up (S n) p.
Proof.
  induction n as [|n IH]; [done|].
  change (up (S n) (parent p)) with (parent (up n (parent p))).
  by rewrite IH.
Qed.

Section Root.

Variable exists_ : path -> outcome bool.
Variable cwd : outcome path.

Local Abbreviation marked := (fun p => exists_ (child p (str ".claude"))).

(** Once the root has been seen without [.claude], looking again
    changes nothing. *)
Lemma nearest_root l :
  marked [] = Ok false ->
  nearest exists_ cwd (List.map (fun k => up k []) l) = cwd.
Proof.
  intros H. induction l as [|k l IH]; [done|].
  cbn [List.map nearest]. by rewrite up_root, H.
Qed.

Lemma search_up_nearest n current :
  (r <-- search_up exists_ n current;
   match r with
   | Some root => Ok root
   | None => cwd
   end)
  = nearest exists_ cwd (List.map (fun k => up k current) (seq 0 n)).
Proof.
  revert current. induction n as [|n IH]; intros current; [done|].
  cbn [search_up seq List.map nearest]. change (up 0 current) with current.
  change (existsb _ PROJECT_MARKERS) with true. cbv iota.
  destruct (exists_ (child current (str ".claude"))) as [[]|e] eqn:He;
    cbn [bind]; [done| |done].
  rewrite <- seq_shift, List.map_map.
  unfold path_eqb. case_bool_decide as Hp.
  - apply parent_fixed in Hp as ->. cbn [bind].
    symmetry. rewrite <- (List.map_map S (fun k => up k [])).
    by apply nearest_root.
  - rewrite IH. f_equal. apply List.map_ext. intros k. apply up_parent.
Qed.

(** X10.  The project root is the nearest directory that holds [.claude] among
    the directory two levels above the module file and the four
    directories above that one; when none of the five holds it, the root is
    the working directory; and a look-up that raises ends the search with
    its error.  The loop makes five rounds, the first of which looks again
    where the test before the loop looked. *)
Theorem find_project_root_nearest (file : path) :
  _find_project_root exists_ cwd file
  = nearest exists_ cwd
      (List.map (fun k => up k (parent (parent file))) (seq 0 5)).
Proof.
  unfold _find_project_root. rewrite search_up_nearest.
  cbn [seq List.map nearest]. change (up 0 ?p) with p.
  by destruct (exists_ (child (parent (parent file)) (str ".claude")))
    as [[]|e] eqn:He; cbn [bind]; rewrite ?He.
Qed.

End Root.

End PathFacts.

(** ** The cards and the counters *)

Module CardFacts.

Import TrendAnalyzer ConfigLoader ReportCards CardSpec Fixtures.

Section Cards.

Variable float_cmp : text -> Z -> option comparison.
Variable c : config.

Hypothesis Hnan : nan_or_not float_cmp.
Hypothesis Hexcellent : grade_excellent c = 80%Z.
Hypothesis Hgood : grade_good c = 60%Z.







End Cards.


(** With other thresholds the two part: a score of 85 under an excellent
    threshold of 90 is counted as good and styled as excellent. *)
Example cards_ignore_configured_thresholds :
  let c := {| api_key := []; topic_count := 20; data_dir := [];
              log_level := []; report_filename_format := [];
              intermediate_filename := [];
              grade_excellent := 90; grade_good := 60 |} in
  grade_counts no_float c (JArr [JObj [(str "total_score", JInt 85)]])
  = Ok (0, 1, 0)%Z /\
  card_classes no_float [JObj [(str "total_score", JInt 85)]]
  = Ok [str "excellent"].
Proof. split; reflexivity. Qed.

End CardFacts.

(** ** The fetchers: validation and numbering *)

Module FetcherFacts.

Import TrendAnalyzer Fetcher FetcherSpec Fixtures.







Section Validate.

Variable float_cmp : text -> Z -> option comparison.

(** X14.  What [WeiboFetcher] accepts gives [process_data] a list to go
    through, and [HotSearchFetcher] accepts it too. *)
Theorem weibo_validation_suffices (data : json) :
  WeiboFetcher._validate_response float_cmp data = Ok true ->
  HotSearchFetcher._validate_response float_cmp data = Ok true /\
  exists m items,
    data = JObj m /\
    (dict_get (str "result") m = Some (JArr items) \/
     exists r, dict_get (str "result") m = Some (JObj r) /\
               dict_get (str "list") r = Some (JArr items)) /\
    result_items data = Ok items.
Proof.
  unfold WeiboFetcher._validate_response, HotSearchFetcher._validate_response.
  destruct data as [| | | | | |m]; try done.
  destruct (code_is_200 float_cmp (dict_get (str "code") m)).
  2:{ by destruct (print _). }
  unfold result_items.
  destruct (dict_get (str "result") m) as [[| | | | |items|r]|] eqn:Hr;
    try done.
  - intros _. split; [done|]. exists m, items. split; [done|].
    split; [by left|done].
  - destruct (dict_get (str "list") r) as [[| | | | |items|]|] eqn:Hl;
      try done.
    intros _. split; [done|]. exists m, items. split; [done|].
    split; [right; by exists r|].
    change (default (JArr []) (Some (JObj r))) with (JObj r). cbv iota.
    by rewrite Hl.
Qed.

End Validate.

Lemma weibo_validation_suffices_witness :
  HotSearchFetcher._validate_response no_float two_words = Ok true /\
  exists m items,
    two_words = JObj m /\
    (dict_get (str "result") m = Some (JArr items) \/
     exists r, dict_get (str "result") m = Some (JObj r) /\
               dict_get (str "list") r = Some (JArr items)) /\
    result_items two_words = Ok items.
Proof.
  apply (weibo_validation_suffices no_float two_words).
  vm_compute. reflexivity.
Defined.

(** X15.  [HotSearchFetcher] accepts a response that [WeiboFetcher]
    rejects and that [process_data] cannot handle: with a text under
    [result] the validation of [HotSearchFetcher] succeeds, and the loop of
    [process_data] raises [AttributeError] on the first character. *)
Example hotsearch_accepts_text_result :
  HotSearchFetcher._validate_response no_float text_result = Ok true /\
  WeiboFetcher._validate_response no_float text_result = Ok false /\
  forall source fetch_time timestamp,
    process_data source fetch_time timestamp text_result
    = Raise AttributeError.
Proof. split; [|split]; done. Qed.

End FetcherFacts.
